(** * hyprevents: the event dispatch engine and the workspace-swap tracker

    A shallow embedding of [src/hyprevents/__init__.py] (class
    [EventHandler]) and of [src/dispatchers/workspaceswap.py] (classes
    [Monitor] and [WorkspaceSwap]), with the properties the specification
    states about them.

    Conventions of the embedding:
    - a Python [str] is a Rocq [string] holding its UTF-8 encoding, a
      [bytes] value is a [string] of raw bytes; [bytes.decode("utf-8")] is
      then the strict validity check [utf8_valid];
    - Python integers are [Z];
    - a Python exception is a value of [exn]; a call that may raise returns
      a [result];
    - objects that are shared and mutated ([Monitor] records, handler
      instances) live in an explicit store and are referred to by address. *)

From Stdlib Require Import ZArith NArith List Ascii String Bool Lia.
From stdpp Require Import base option list strings gmap.

Local Open Scope string_scope.

(** ** Exceptions and results *)

Inductive exn : Type :=
| KeyError
| ValueError
| IndexError
| TypeError
| AttributeError
| AssertionError
| UnicodeDecodeError
| HyprIPCError
| RecursionError
| PlainException          (* [raise Exception] *)
| OtherException (tag : string)
| KeyboardInterrupt       (* derives from BaseException only *)
| SystemExit.             (* derives from BaseException only *)

(** [except Exception] catches everything but the two [BaseException]s. *)
Definition is_Exception (e : exn) : bool :=
  match e with
  | KeyboardInterrupt | SystemExit => false
  | _ => true
  end.

Inductive result (A : Type) : Type :=
| Ok (a : A)
| Raise (e : exn).
Arguments Ok {A} a.
Arguments Raise {A} e.

(** A computation over a mutable state [S] that may raise; the state at
    the time of the [raise] is kept, as Python keeps the mutations made
    before an exception. *)
Definition M (S A : Type) : Type := S -> result A * S.

Definition ret {S A} (a : A) : M S A := fun s => (Ok a, s).
Definition throw {S A} (e : exn) : M S A := fun s => (Raise e, s).
Definition bind {S A B} (m : M S A) (k : A -> M S B) : M S B :=
  fun s => match m s with
           | (Ok a, s') => k a s'
           | (Raise e, s') => (Raise e, s')
           end.
Definition get {S} : M S S := fun s => (Ok s, s).
Definition modify {S} (f : S -> S) : M S unit := fun s => (Ok tt, f s).

Notation "'let*' x ':=' m 'in' k" := (bind m (fun x => k))
  (at level 10, x pattern, m at level 100, k at level 200).
Notation "'do*' m 'in' k" := (bind m (fun _ => k))
  (at level 10, m at level 100, k at level 200).

(** [if c: body] without an [else]. *)
Definition when {S} (c : bool) (body : M S unit) : M S unit :=
  if c then body else ret tt.

(** [for x in xs: body x] *)
Fixpoint for_each {S A} (body : A -> M S unit) (xs : list A) : M S unit :=
  match xs with
  | [] => ret tt
  | x :: xs' => bind (body x) (fun _ => for_each body xs')
  end.

(** ** Event records ([src/hyprevents/event.py]) *)

Module HyprEvent.

Record t : Type := mk { name : string; data : string }.

End HyprEvent.

(** * Library functions the program calls *)

Definition newline : ascii := ascii_of_nat 10.

(** Strict UTF-8, as [bytes.decode("utf-8")] checks it: shortest forms
    only, no surrogates, nothing above U+10FFFF. *)
Definition in_range (lo hi b : N) : bool := ((lo <=? b) && (b <=? hi))%N.
Definition is_cont (b : N) : bool := in_range 128 191 b.

Definition second_of_3 (b0 b1 : N) : bool :=
  if (b0 =? 224)%N then in_range 160 191 b1
  else if (b0 =? 237)%N then in_range 128 159 b1
  else is_cont b1.

Definition second_of_4 (b0 b1 : N) : bool :=
  if (b0 =? 240)%N then in_range 144 191 b1
  else if (b0 =? 244)%N then in_range 128 143 b1
  else is_cont b1.

Fixpoint utf8_valid_bytes (l : list N) : bool :=
  match l with
  | [] => true
  | b0 :: t =>
      if (b0 <=? 127)%N then utf8_valid_bytes t
      else if in_range 194 223 b0 then
        match t with
        | b1 :: t1 => is_cont b1 && utf8_valid_bytes t1
        | _ => false
        end
      else if in_range 224 239 b0 then
        match t with
        | b1 :: b2 :: t2 =>
            second_of_3 b0 b1 && is_cont b2 && utf8_valid_bytes t2
        | _ => false
        end
      else if in_range 240 244 b0 then
        match t with
        | b1 :: b2 :: b3 :: t3 =>
            second_of_4 b0 b1 && is_cont b2 && is_cont b3
            && utf8_valid_bytes t3
        | _ => false
        end
      else false
  end.

Definition utf8_valid (s : string) : bool :=
  utf8_valid_bytes (map N_of_ascii (list_ascii_of_string s)).

Definition decode_utf8 (buf : string) : result string :=
  if utf8_valid buf then Ok buf else Raise UnicodeDecodeError.

(** [self.regex1 = re.compile(r"(.+)>>(.+)")], used through [search].
    [.] is any character but a newline; both groups are greedy. *)

(** The second group [(.+)] at the position after [>>]: the longest run
    of non-newline characters, which must not be empty. *)
Fixpoint dot_star (s : string) : string :=
  match s with
  | EmptyString => ""
  | String c t => if decide (c = newline) then "" else String c (dot_star t)
  end.

Definition dot_plus (s : string) : option string :=
  match dot_star s with
  | EmptyString => None
  | g => Some g
  end.

(** The literal [>>] at the head of [s]: what follows it, if it is there. *)
Definition literal_sep (s : string) : option string :=
  match s with
  | String c1 (String c2 r) =>
      if decide (c1 = ">"%char /\ c2 = ">"%char) then Some r else None
  | _ => None
  end.

(** A match attempt anchored at the head of [s]. The first group takes at
    least one character; being greedy it tries the longer alternatives
    first and gives characters back one at a time until [>>(.+)] follows. *)
Fixpoint match_here (s : string) : option (string * string) :=
  match s with
  | EmptyString => None
  | String c t =>
      if decide (c = newline) then None
      else
        match match_here t with
        | Some (g1, g2) => Some (String c g1, g2)
        | None =>
            match literal_sep t with
            | Some r =>
                match dot_plus r with
                | Some g2 => Some (String c "", g2)
                | None => None
                end
            | None => None
            end
        end
  end.

(** [search]: the leftmost start position at which a match exists. *)
Fixpoint regex1_search (s : string) : option (string * string) :=
  match match_here s with
  | Some g => Some g
  | None =>
      match s with
      | EmptyString => None
      | String _ t => regex1_search t
      end
  end.

(** [s.split(",")]: the pieces between the commas, never an empty list. *)
Fixpoint split_comma (s : string) : list string :=
  match s with
  | EmptyString => [""]
  | String c t =>
      if decide (c = ","%char) then "" :: split_comma t
      else
        match split_comma t with
        | piece :: pieces => String c piece :: pieces
        | [] => [String c ""]
        end
  end.

(** [int(s)] on a [str] of ASCII characters: blanks around (tab to
    carriage return, and the space), an optional sign, decimal digits
    with single underscores between them. [None] is [ValueError]. On
    text with characters beyond ASCII the interpreter accepts more (the
    decimal digits and the blanks of other scripts), and it refuses more
    than 4300 digits: [int_modelled] below is where this definition is
    the interpreter's. *)
Definition is_space (c : ascii) : bool :=
  let n := N_of_ascii c in (in_range 9 13 n || (n =? 32)%N).

Definition digit_val (c : ascii) : option Z :=
  let n := N_of_ascii c in
  if in_range 48 57 n then Some (Z.of_N n - 48)%Z else None.

Fixpoint lstrip (s : string) : string :=
  match s with
  | String c t => if is_space c then lstrip t else s
  | EmptyString => ""
  end.

Fixpoint rstrip (s : string) : string :=
  match s with
  | EmptyString => ""
  | String c t =>
      match rstrip t with
      | EmptyString => if is_space c then "" else String c ""
      | t' => String c t'
      end
  end.

Fixpoint digits (s : string) (acc : Z) (after_digit : bool) : option Z :=
  match s with
  | EmptyString => if after_digit then Some acc else None
  | String c t =>
      match digit_val c with
      | Some d => digits t (10 * acc + d)%Z true
      | None =>
          if decide (c = "_"%char) then
            if after_digit then digits t acc false else None
          else None
      end
  end.

Definition py_int (s : string) : option Z :=
  match rstrip (lstrip s) with
  | String "-" t => Z.opp <$> digits t 0 false
  | String "+" t => digits t 0 false
  | t => digits t 0 false
  end.

Definition int {S} (s : string) : M S Z :=
  match py_int s with
  | Some z => ret z
  | None => throw ValueError
  end.

Definition is_ascii (s : string) : bool :=
  forallb (fun c => (N_of_ascii c <? 128)%N) (list_ascii_of_string s).

(** The texts on which [py_int] is [int]: ASCII only, and no longer than
    the interpreter's limit of digits. *)
Definition int_modelled (s : string) : Prop :=
  is_ascii s = true /\ String.length s <= 4300.

(** [xs[i]] on a list. *)
Definition index {S A} (xs : list A) (i : nat) : M S A :=
  match xs !! i with
  | Some x => ret x
  | None => throw IndexError
  end.

(** [xs.remove(x)]: drops the first element equal to [x]; [None] is the
    [ValueError] of an absent [x]. *)
Fixpoint list_remove_first (x : nat) (xs : list nat) : option (list nat) :=
  match xs with
  | [] => None
  | y :: ys =>
      if decide (y = x) then Some ys
      else cons y <$> list_remove_first x ys
  end.


(** * The dispatch engine ([src/hyprevents/__init__.py]) *)

Module EventHandler.

(** ** Reading the event socket *)

(** What the event socket delivers: bytes, and the operator's interrupt
    arriving while [recv] blocks. The end of the list is the point up to
    which the channel is known: a read that reaches it does not return
    (it blocks, or spins on the empty reads of a closed socket). *)
Inductive chan_item : Type :=
| Recv (c : ascii)
| Sigint.

(** The [while True] loop of [get_next_event]: one byte at a time, until
    a newline. *)
Fixpoint recv_line (chan : list chan_item) (buf : string)
  : option (result string * list chan_item) :=
  match chan with
  | [] => None
  | Sigint :: rest => Some (Raise KeyboardInterrupt, rest)
  | Recv c :: rest =>
      if decide (c = newline) then Some (Ok buf, rest)
      else recv_line rest (buf ++ String c "")
  end.

(** [get_next_event]. [None]: the read does not return on this channel. *)
Definition get_next_event (chan : list chan_item)
  : option (result (option HyprEvent.t) * list chan_item) :=
  match recv_line chan "" with
  | None => None
  | Some (Raise e, rest) => Some (Raise e, rest)
  | Some (Ok buf, rest) =>
      match decode_utf8 buf with
      | Raise e => Some (Raise e, rest)
      | Ok line =>
          match regex1_search line with
          | None => Some (Ok None, rest)
          | Some (eventname, eventdata) =>
              Some (Ok (Some (HyprEvent.mk eventname eventdata)), rest)
          end
      end
  end.

(** The bytes of a record on the wire: its text, then a newline. *)
Definition send_line (line : string) : list chan_item :=
  (map Recv (list_ascii_of_string line) ++ [Recv newline])%list.

(** ** Configuration, plugins and handler instances *)

(** A section of [config.toml], as far as the engine reads it. The other
    keys of a section are the handler's business. *)
Record ModConfig : Type := mkModConfig {
  loaded : option (list string);      (* ["loaded"], in [general] *)
  subscribes : option (list string)   (* ["subscribes"] *)
}.

(** What [load_plugin_as_module] returns: the module's [__name__] and the
    object bound to its [handler]. Handler instances are objects compared
    by identity; they are referred to by address. *)
Record PluginModule : Type := mkModule {
  mod_name : string;
  mod_handler : nat
}.

(** The method calls the engine makes on handler instances, in order. *)
Inductive call : Type :=
| LoadConfig (handler : nat) (cfg : ModConfig)
| HandleEvent (handler : nat) (event : HyprEvent.t).

Section Engine.

(** Everything outside the engine's registries: the file system the
    plugins are loaded from, the handlers' own state, the window manager.
    The plugin loader and the handlers' methods act on it and may raise.
    They do not touch the engine's registries. *)
Context {W : Type}.
Variable load_plugin_as_module : string -> W -> result PluginModule * W.
Variable handler_load_config : nat -> ModConfig -> W -> result unit * W.
Variable handler_handle_event : nat -> HyprEvent.t -> W -> result unit * W.

Record t : Type := mk {
  config : gmap string ModConfig;
  dispatchers : gmap string (list nat);
  handlers : gmap string nat;
  running : bool;
  eventsock_open : bool;
  world : W;
  calls : list call
}.

Definition set_dispatchers (d : gmap string (list nat)) (self : t) : t :=
  mk (config self) d (handlers self) (running self) (eventsock_open self)
     (world self) (calls self).
Definition set_handlers (h : gmap string nat) (self : t) : t :=
  mk (config self) (dispatchers self) h (running self) (eventsock_open self)
     (world self) (calls self).
Definition set_running (b : bool) (self : t) : t :=
  mk (config self) (dispatchers self) (handlers self) b (eventsock_open self)
     (world self) (calls self).
Definition set_eventsock_open (b : bool) (self : t) : t :=
  mk (config self) (dispatchers self) (handlers self) (running self) b
     (world self) (calls self).
Definition set_world (w : W) (self : t) : t :=
  mk (config self) (dispatchers self) (handlers self) (running self)
     (eventsock_open self) w (calls self).
Definition log_call (c : call) (self : t) : t :=
  mk (config self) (dispatchers self) (handlers self) (running self)
     (eventsock_open self) (world self) (calls self ++ [c])%list.

(** Running something of the outside world from the engine. *)
Definition in_world {A} (f : W -> result A * W) : M t A :=
  fun self => let (r, w) := f (world self) in (r, set_world w self).

Definition call_load_config (handler : nat) (cfg : ModConfig) : M t unit :=
  do* modify (log_call (LoadConfig handler cfg)) in
  in_world (handler_load_config handler cfg).

Definition call_handle_event (handler : nat) (event : HyprEvent.t)
  : M t unit :=
  do* modify (log_call (HandleEvent handler event)) in
  in_world (handler_handle_event handler event).

(** [d[k]] on a dict. *)
Definition getitem {A} (d : gmap string A) (k : string) : M t A :=
  match d !! k with
  | Some v => ret v
  | None => throw KeyError
  end.

(** [self.config[k]["subscribes"]] *)
Definition config_subscribes (k : string) : M t (list string) :=
  let* self := get in
  let* section := getitem (config self) k in
  match subscribes section with
  | Some events => ret events
  | None => throw KeyError
  end.

(** ** Loading and unloading *)

Definition subscribe (handler : nat) (event : string) : M t unit :=
  modify (fun self =>
    match dispatchers self !! event with
    | Some subscribed =>
        set_dispatchers
          (<[event := (subscribed ++ [handler])%list]> (dispatchers self)) self
    | None =>
        set_dispatchers (<[event := [handler]]> (dispatchers self)) self
    end).

Definition load_dispatcher (dispname : string) : M t unit :=
  let* module := in_world (load_plugin_as_module dispname) in
  let handler := mod_handler module in
  do* modify (fun self =>
        set_handlers (<[mod_name module := handler]> (handlers self)) self) in
  let* self := get in
  let* mod_config :=
    match config self !! dispname with
    | Some c => ret c
    | None => throw PlainException       (* except KeyError: raise Exception *)
    end in
  do* call_load_config handler mod_config in
  let* events := config_subscribes (mod_name module) in
  for_each (subscribe handler) events.

(** [try: body  except Exception: continue] *)
Definition try_except_Exception (body : M t unit) : M t unit :=
  fun self =>
    match body self with
    | (Raise e, self') =>
        if is_Exception e then (Ok tt, self') else (Raise e, self')
    | r => r
    end.

Definition load_all_dispatchers : M t unit :=
  let* self := get in
  let* general := getitem (config self) "general" in
  let* names :=
    match loaded general with
    | Some names => ret names
    | None => throw KeyError
    end in
  for_each (fun dispname => try_except_Exception (load_dispatcher dispname))
           names.

Definition unsubscribe (dispatcher : nat) (event : string) : M t unit :=
  let* self := get in
  let* subscribed := getitem (dispatchers self) event in
  match list_remove_first dispatcher subscribed with
  | Some subscribed' =>
      modify (set_dispatchers (<[event := subscribed']> (dispatchers self)))
  | None => throw ValueError
  end.

Definition unload_dispatcher (dispname : string) : M t unit :=
  let* subbed_events := config_subscribes dispname in
  let* self := get in
  let* dispatcher := getitem (handlers self) dispname in
  do* for_each (unsubscribe dispatcher) subbed_events in
  modify (fun self => set_handlers (delete dispname (handlers self)) self).

Definition reload_dispatcher_config (dispname : string) : M t unit :=
  let* self := get in
  let* disp_config := getitem (config self) dispname in
  let* dispatcher := getitem (handlers self) dispname in
  call_load_config dispatcher disp_config.

(** ** Dispatch and the main loop *)

Definition dispatch_event (event : HyprEvent.t) : M t unit :=
  let* self := get in
  match dispatchers self !! HyprEvent.name event with
  | Some subscribed =>
      for_each (fun dispatcher => call_handle_event dispatcher event)
               subscribed
  | None => ret tt
  end.

Definition teardown : M t unit := modify (set_eventsock_open false).

(** How a run of [mainloop] over a known stretch of the channel ends. *)
Inductive run : Type :=
| Returned (self : t) (rest : list chan_item)   (* loop left, socket closed *)
| Crashed (e : exn) (self : t) (rest : list chan_item)
| Blocked (self : t)                           (* waiting in [recv] *)
| OutOfFuel.

(** One fuel unit per evaluation of the [while] condition. *)
Fixpoint mainloop_from (fuel : nat) (chan : list chan_item) (self : t) : run :=
  match fuel with
  | O => OutOfFuel
  | S fuel' =>
      if running self then
        match get_next_event chan with
        | None => Blocked self
        | Some (Raise KeyboardInterrupt, rest) =>
            mainloop_from fuel' rest (set_running false self)
        | Some (Raise e, rest) => Crashed e self rest
        | Some (Ok None, rest) => mainloop_from fuel' rest self
        | Some (Ok (Some event), rest) =>
            match dispatch_event event self with
            | (Ok _, self') => mainloop_from fuel' rest self'
            | (Raise KeyboardInterrupt, self') =>
                mainloop_from fuel' rest (set_running false self')
            | (Raise e, self') => Crashed e self' rest
            end
        end
      else
        Returned (snd (teardown self)) chan
  end.

(** Every pass consumes at least one item of the channel, so this much
    fuel is never used up. *)
Definition mainloop (chan : list chan_item) (self : t) : run :=
  mainloop_from (S (length chan)) chan self.

End Engine.

End EventHandler.

(** * The workspace-swap tracker ([src/dispatchers/workspaceswap.py]) *)

Module Monitor.

Record t : Type := mk {
  name : string;
  id : Z;
  curr_wkspc : option Z;
  prev_wkspc : option Z
}.

(** [Monitor(name, id, wkspc)] *)
Definition init (name : string) (id : Z) (wkspc : option Z) : t :=
  mk name id wkspc None.

Definition set_name (n : string) (self : t) : t :=
  mk n (id self) (curr_wkspc self) (prev_wkspc self).
Definition set_id (i : Z) (self : t) : t :=
  mk (name self) i (curr_wkspc self) (prev_wkspc self).
Definition set_prev (p : option Z) (self : t) : t :=
  mk (name self) (id self) (curr_wkspc self) p.
Definition set_curr (c : option Z) (self : t) : t :=
  mk (name self) (id self) c (prev_wkspc self).

Definition set_curr_wkspc (wkspc : Z) : M t unit :=
  let* self := get in
  do* when (bool_decide (curr_wkspc self ≠ Some wkspc))
        (do* modify (fun self => set_prev (curr_wkspc self) self) in
         modify (set_curr (Some wkspc))) in
  let* self := get in
  if bool_decide (curr_wkspc self ≠ prev_wkspc self) then ret tt
  else throw AssertionError.

End Monitor.

Module WorkspaceSwap.

(** ** The command gateway, as the tracker uses it *)

(** One element of the reply to [monitors]: [mon["name"]], [mon["id"]],
    [mon["activeWorkspace"]["id"]]. *)
Record MonInfo : Type := mkMonInfo {
  mi_name : string;
  mi_id : Z;
  mi_activeWorkspace : Z
}.

(** The reply to [activeworkspace]: [["monitor"]], [["monitorID"]],
    [["id"]]. *)
Record ActiveWs : Type := mkActiveWs {
  aw_monitor : string;
  aw_monitorID : Z;
  aw_id : Z
}.

Inductive command : Type :=
| Monitors                                        (* "monitors" *)
| ActiveWorkspace                                 (* "activeworkspace" *)
| FocusWorkspaceOnCurrentMonitor (wkspcid : Z).
    (* f"dispatch focusworkspaceoncurrentmonitor {wkspcid}" *)

Inductive reply : Type :=
| MonitorsReply (moninfo : list MonInfo)
| ActiveWorkspaceReply (activews : ActiveWs)
| OtherReply.

(** The window manager is outside the program: what it answers to the
    [n]-th command the tracker sends is given by an oracle. *)
Definition gateway : Type := nat -> command -> result reply.

(** ** The tracker's state *)

(** [monitors] is a dict from monitor name to [Monitor] object, in
    insertion order; [currentmon] is a reference to a [Monitor] object,
    which may or may not be one of the dict's values. The objects are in
    [store], at the addresses the references hold. [issued] is the list of
    commands sent so far. *)
Record t : Type := mk {
  triggerdata : string -> option string;
  currentmon : nat;
  monitors : list (string * nat);
  store : list Monitor.t;
  issued : list command
}.

Definition set_triggerdata (f : string -> option string) (self : t) : t :=
  mk f (currentmon self) (monitors self) (store self) (issued self).
Definition set_currentmon (a : nat) (self : t) : t :=
  mk (triggerdata self) a (monitors self) (store self) (issued self).
Definition set_monitors (d : list (string * nat)) (self : t) : t :=
  mk (triggerdata self) (currentmon self) d (store self) (issued self).
Definition set_store (s : list Monitor.t) (self : t) : t :=
  mk (triggerdata self) (currentmon self) (monitors self) s (issued self).
Definition set_issued (c : list command) (self : t) : t :=
  mk (triggerdata self) (currentmon self) (monitors self) (store self) c.

(** Dict operations, keeping insertion order. *)
Fixpoint dict_get (k : string) (d : list (string * nat)) : option nat :=
  match d with
  | [] => None
  | (k', v) :: d' => if decide (k' = k) then Some v else dict_get k d'
  end%list.

Fixpoint dict_set (k : string) (v : nat) (d : list (string * nat))
  : list (string * nat) :=
  match d with
  | [] => [(k, v)]
  | (k', v') :: d' =>
      if decide (k' = k) then (k', v) :: d' else (k', v') :: dict_set k v d'
  end%list.

Definition values (d : list (string * nat)) : list nat := map snd d.

(** A new object. *)
Definition new_monitor (m : Monitor.t) : M t nat :=
  fun self => (Ok (length (store self)),
               set_store (store self ++ [m])%list self).

(** Reading the object behind a reference. Python has no dangling
    references; the error case only keeps the function total. *)
Definition deref (a : nat) : M t Monitor.t :=
  fun self =>
    match store self !! a with
    | Some m => (Ok m, self)
    | None => (Raise (OtherException "dangling reference"), self)
    end.

(** A method call on the object behind a reference: the object is
    mutated in place, also when the method raises. *)
Definition on_monitor {A} (a : nat) (method : M Monitor.t A) : M t A :=
  fun self =>
    match store self !! a with
    | Some m =>
        let (r, m') := method m in
        (r, set_store (<[a := m']> (store self)) self)
    | None => (Raise (OtherException "dangling reference"), self)
    end.

(** ** Event payloads *)

Definition parse_focusedmon_data (data : string) : M t (string * Z) :=
  let s := split_comma data in
  let* s0 := index s 0 in
  let* s1 := index s 1 in
  let* n := int s1 in
  ret (s0, n).

Definition parse_moveworkspace_data (data : string)
  : M t (Z * string * string) :=
  let s := split_comma data in
  let* s0 := index s 0 in
  let* n := int s0 in
  let* s1 := index s 1 in
  let* s2 := index s 2 in
  ret (n, s1, s2).

(** Reading a reply as the code indexes into it: a reply of another
    shape fails at the first index, or at the first element of the
    loop. *)
Definition as_monitors (r : reply) : M t (list MonInfo) :=
  match r with
  | MonitorsReply moninfo => ret moninfo
  | _ => throw TypeError
  end.

Definition as_activeworkspace (r : reply) : M t ActiveWs :=
  match r with
  | ActiveWorkspaceReply activews => ret activews
  | _ => throw TypeError
  end.

Section Tracker.

Variable gw : gateway.

Definition send_hyprland_cmd (cmd : command) : M t reply :=
  fun self =>
    (gw (length (issued self)) cmd,
     set_issued (issued self ++ [cmd])%list self).

(** A reply of another shape than the one indexed into fails at the
    first index. *)
Definition query_monitors : M t (list MonInfo) :=
  let* r := send_hyprland_cmd Monitors in
  match r with
  | MonitorsReply moninfo => ret moninfo
  | _ => throw TypeError
  end.

Definition query_activeworkspace : M t ActiveWs :=
  let* r := send_hyprland_cmd ActiveWorkspace in
  match r with
  | ActiveWorkspaceReply activews => ret activews
  | _ => throw TypeError
  end.

Definition monitor_of (mon : MonInfo) : Monitor.t :=
  Monitor.init (mi_name mon) (mi_id mon) (Some (mi_activeWorkspace mon)).

(** [load_config], after the pattern of [config["swap-ev"]["data"]] has
    been compiled to [data_regex]: the pattern's [search], giving the
    text of its first group. Both commands are sent before either reply
    is looked into. *)
Definition load_config (data_regex : string -> option string) : M t unit :=
  do* modify (set_triggerdata data_regex) in
  let* activews_reply := send_hyprland_cmd ActiveWorkspace in
  let* allmonitorinfo_reply := send_hyprland_cmd Monitors in
  let* activews := as_activeworkspace activews_reply in
  let* cm := new_monitor (Monitor.init (aw_monitor activews)
                            (aw_monitorID activews) (Some (aw_id activews))) in
  do* modify (set_currentmon cm) in
  do* modify (set_monitors []) in
  let* allmonitorinfo := as_monitors allmonitorinfo_reply in
  for_each (fun mon =>
      let* a := new_monitor (monitor_of mon) in
      modify (fun self =>
        set_monitors (dict_set (mi_name mon) a (monitors self)) self))
    allmonitorinfo.

Definition update_monitor_info : M t unit :=
  let* moninfo := query_monitors in
  do* for_each (fun mon =>
        let* self := get in
        match dict_get (mi_name mon) (monitors self) with
        | Some monitor =>
            on_monitor monitor
              (Monitor.set_curr_wkspc (mi_activeWorkspace mon))
        | None =>
            let* a := new_monitor (monitor_of mon) in
            modify (fun self =>
              set_monitors (dict_set (mi_name mon) a (monitors self)) self)
        end) moninfo in
  let* activews := query_activeworkspace in
  let* self := get in
  do* on_monitor (currentmon self)
        (modify (Monitor.set_name (aw_monitor activews))) in
  do* on_monitor (currentmon self)
        (modify (Monitor.set_id (aw_monitorID activews))) in
  on_monitor (currentmon self) (Monitor.set_curr_wkspc (aw_id activews)).

(** The first of [self.monitors.values()] whose current (or, with
    [prev], previous) workspace is [wkspcid]. *)
Definition find_wkspc_mon (wkspcid : Z) (prev : bool) : M t (option nat) :=
  let* self := get in
  ret (List.find
         (fun a =>
            match store self !! a with
            | Some mon =>
                if prev then bool_decide (Monitor.prev_wkspc mon = Some wkspcid)
                else bool_decide (Monitor.curr_wkspc mon = Some wkspcid)
            | None => false
            end)
         (values (monitors self))).

Definition focus_workspace_on_current_mon (wkspcid : Z) : M t unit :=
  do* send_hyprland_cmd (FocusWorkspaceOnCurrentMonitor wkspcid) in
  ret tt.

(** [othermon is not None and othermon.name == self.currentmon.name] *)
Definition is_current (othermon : option nat) : M t bool :=
  match othermon with
  | None => ret false
  | Some a =>
      let* o := deref a in
      let* self := get in
      let* c := deref (currentmon self) in
      ret (bool_decide (Monitor.name o = Monitor.name c))
  end.

(** [depth] is the number of frames the interpreter still allows: a call
    beyond it raises [RecursionError]. *)
Fixpoint do_workspace_change (depth : nat) (wkspcid : Z) : M t unit :=
  match depth with
  | O => throw RecursionError
  | S depth' =>
      do* update_monitor_info in
      let* othermon := find_wkspc_mon wkspcid false in
      let* active := is_current othermon in
      if active then
        let* self := get in
        let* c := deref (currentmon self) in
        match Monitor.prev_wkspc c with
        | None => ret tt
        | Some new_wkspcid => do_workspace_change depth' new_wkspcid
        end
      else focus_workspace_on_current_mon wkspcid
  end.

Definition handle_event (depth : nat) (event : HyprEvent.t) : M t unit :=
  let ename := HyprEvent.name event in
  if decide (ename = "focusedmon") then
    let* (monname, wkspcid) := parse_focusedmon_data (HyprEvent.data event) in
    let* self := get in
    match dict_get monname (monitors self) with
    | Some a => modify (set_currentmon a)
    | None => throw KeyError
    end
  else if decide (ename = "workspace") then
    let* wkspcid := int (HyprEvent.data event) in
    let* self := get in
    on_monitor (currentmon self) (Monitor.set_curr_wkspc wkspcid)
  else if decide (ename = "moveworkspacev2") then
    let* (wkspcid, _, monname) :=
      parse_moveworkspace_data (HyprEvent.data event) in
    let* self := get in
    match dict_get monname (monitors self) with
    | Some a => on_monitor a (Monitor.set_curr_wkspc wkspcid)
    | None => throw KeyError
    end
  else if decide (ename = "custom") then
    let* self := get in
    match triggerdata self (HyprEvent.data event) with
    | None => ret tt
    | Some group1 =>
        match py_int group1 with
        | None => ret tt                (* except ValueError: return *)
        | Some new_wkspc => do_workspace_change depth new_wkspc
        end
    end
  else ret tt.

End Tracker.

(** The tracker object before [load_config] has run. *)
Definition blank : t := mk (fun _ => None) 0 [] [] [].

End WorkspaceSwap.

(** * Vocabulary of the properties *)

Import EventHandler.

(** ** Lines *)

Fixpoint no_newline (s : string) : Prop :=
  match s with
  | EmptyString => True
  | String c t => c <> newline /\ no_newline t
  end.

Fixpoint no_comma (s : string) : Prop :=
  match s with
  | EmptyString => True
  | String c t => c <> ","%char /\ no_comma t
  end.



(** ** Registrations and calls *)

(** The handlers of [hs] handle [event] one after the other from the
    world [w] without a fault, and leave the world [w']. *)
Fixpoint handled_by {W} (handle : nat -> HyprEvent.t -> W -> result unit * W)
    (event : HyprEvent.t) (hs : list nat) (w : W) : option W :=
  match hs with
  | [] => Some w
  | h :: hs' =>
      match handle h event w with
      | (Ok _, w') => handled_by handle event hs' w'
      | (Raise _, _) => None
      end
  end.

(** The engine after the handlers were called: only the outside world
    and the record of calls have changed. *)
Definition after_calls {W} (w : W) (cs : list call)
    (self : @EventHandler.t W) : @EventHandler.t W :=
  EventHandler.mk (config self) (dispatchers self) (handlers self)
    (running self) (eventsock_open self) w (calls self ++ cs)%list.

(** How often the handler instance [h] stands in the subscription list of
    [event]. *)
Definition registrations {W} (h : nat) (event : string)
    (self : @EventHandler.t W) : nat :=
  count_occ Nat.eq_dec (default [] (dispatchers self !! event)) h.

(** The calls made from the state [before] on, in the later state
    [after]. *)
Definition calls_since {W} (before after : @EventHandler.t W) : list call :=
  drop (length (calls before)) (calls after).

(** What the loop does with one complete line: the decoding and the
    pattern of [get_next_event], then [dispatch_event]. *)
Definition handle_line {W}
    (handle : nat -> HyprEvent.t -> W -> result unit * W) (line : string)
  : M (@EventHandler.t W) unit :=
  match decode_utf8 line with
  | Raise e => throw e
  | Ok text =>
      match regex1_search text with
      | None => ret tt
      | Some (n, d) => dispatch_event handle (HyprEvent.mk n d)
      end
  end.

Section FurtherLoads.

Context {W : Type}.
Variable load_plugin_as_module : string -> W -> result PluginModule * W.
Variable handler_load_config : nat -> ModConfig -> W -> result unit * W.

(** [further_loads h self self']: [self'] is reached from [self] by calls
    of [load_dispatcher], successful or not, none of which loads a module
    whose handler is the instance [h]. *)
Inductive further_loads (h : nat)
  : @EventHandler.t W -> @EventHandler.t W -> Prop :=
| further_none self : further_loads h self self
| further_load self dispname r self1 self2 :
    (forall module w,
        load_plugin_as_module dispname (world self) = (Ok module, w) ->
        mod_handler module <> h) ->
    load_dispatcher load_plugin_as_module handler_load_config dispname self
    = (r, self1) ->
    further_loads h self1 self2 ->
    further_loads h self self2.

End FurtherLoads.

(** ** A concrete installation of the engine *)

(** Plugins as the two of the repository are written: executing the
    module file builds a new handler object ([handler = WorkspaceSwap()])
    and names the module after the file. The world is the number of
    objects built so far. *)
Definition fresh_loader (dispname : string) (next : nat)
  : result PluginModule * nat :=
  (Ok (mkModule dispname next), S next).

(** A plugin whose module hands out one and the same object each time. *)
Definition shared_loader (dispname : string) (w : nat)
  : result PluginModule * nat :=
  (Ok (mkModule dispname 7), w).

Definition quiet_load_config (h : nat) (cfg : ModConfig) (w : nat)
  : result unit * nat := (Ok tt, w).

Definition quiet_handle_event (h : nat) (event : HyprEvent.t) (w : nat)
  : result unit * nat := (Ok tt, w).

(** The handler [bad] faults on every event. *)
Definition faulty_handle_event (bad h : nat) (event : HyprEvent.t) (w : nat)
  : result unit * nat :=
  if decide (h = bad) then (Raise ValueError, w) else (Ok tt, w).

Definition example_config : gmap string ModConfig :=
  <["general" := mkModConfig (Some ["workspaceswap"; "missing"; "duckypad"]) None]>
  (<["workspaceswap" := mkModConfig None (Some ["focusedmon"; "workspace"; "custom"])]>
  (<["duckypad" := mkModConfig None (Some ["activewindow"; "custom"])]> ∅)).

Definition fresh_engine : @EventHandler.t nat :=
  EventHandler.mk example_config ∅ ∅ true true 0 [].

(** Load, load again without unloading, then unload. *)
Definition reload_then_unload
    (loader : string -> nat -> result PluginModule * nat)
  : M (@EventHandler.t nat) unit :=
  do* load_dispatcher loader quiet_load_config "workspaceswap" in
  do* load_dispatcher loader quiet_load_config "workspaceswap" in
  unload_dispatcher "workspaceswap".

Definition workspace_2 : HyprEvent.t := HyprEvent.mk "workspace" "2".

(** An engine with three handlers subscribed to [workspace]. *)
Definition subscribed_engine : @EventHandler.t nat :=
  EventHandler.mk example_config (<["workspace" := [0; 1; 2]]> ∅) ∅
    true true 0 [].

(** The engine after [workspaceswap] was loaded, and after the load of
    [missing], which has no section, failed. *)
Definition loaded_one : @EventHandler.t nat :=
  snd (load_dispatcher fresh_loader quiet_load_config "workspaceswap"
         fresh_engine).

Definition failed_one : @EventHandler.t nat :=
  snd (load_dispatcher fresh_loader quiet_load_config "missing" loaded_one).

(** ** The tracker *)

Import WorkspaceSwap.

Local Open Scope Z_scope.

(** The previous workspaces the active monitor's record still holds, the
    most recent first: the record keeps one. *)
Definition prev_chain (self : WorkspaceSwap.t) : list Z :=
  match store self !! currentmon self with
  | Some c =>
      match Monitor.prev_wkspc c with
      | Some p => [p]
      | None => []
      end
  | None => []
  end.

(** The commands of [n] resyncs. *)
Fixpoint resyncs (n : nat) : list command :=
  match n with
  | O => []
  | S n' => Monitors :: ActiveWorkspace :: resyncs n'
  end.

(** The body of the loop of [update_monitor_info], for one element of
    the reply to [monitors]. *)
Definition resync_one (mon : MonInfo) : M WorkspaceSwap.t unit :=
  let* self := get in
  match dict_get (mi_name mon) (monitors self) with
  | Some monitor =>
      on_monitor monitor (Monitor.set_curr_wkspc (mi_activeWorkspace mon))
  | None =>
      let* a := new_monitor (monitor_of mon) in
      modify (fun self =>
        set_monitors (dict_set (mi_name mon) a (monitors self)) self)
  end.

(** The body of the loop of [load_config], for one element of the reply
    to [monitors]. *)
Definition file_one (mon : MonInfo) : M WorkspaceSwap.t unit :=
  let* a := new_monitor (monitor_of mon) in
  modify (fun self =>
    set_monitors (dict_set (mi_name mon) a (monitors self)) self).

(** The window manager does not change while the toggle runs: it gives
    the same answers to every resync. *)
Definition static (gw : gateway) (moninfo : list MonInfo)
    (activews : ActiveWs) : Prop :=
  forall n, gw n Monitors = Ok (MonitorsReply moninfo)
            /\ gw n ActiveWorkspace = Ok (ActiveWorkspaceReply activews).

(** Its two answers agree: every monitor is listed once, and the focused
    monitor is listed with the active workspace. *)
Definition consistent (moninfo : list MonInfo) (activews : ActiveWs) : Prop :=
  NoDup (map mi_name moninfo)
  /\ exists mon, mon ∈ moninfo
                 /\ mi_name mon = aw_monitor activews
                 /\ mi_activeWorkspace mon = aw_id activews.

(** The table is a dict of distinct live objects, the active reference
    is live, and every entry other than the one the active reference is
    to carries the name it is filed under. *)
Record well_named (self : WorkspaceSwap.t) : Prop := mk_well_named {
  wn_keys : NoDup (map fst (monitors self));
  wn_values : NoDup (values (monitors self));
  wn_live : forall a, a ∈ values (monitors self) ->
                      (a < length (store self))%nat;
  wn_current : (currentmon self < length (store self))%nat;
  wn_names : forall k a m,
      (k, a) ∈ monitors self -> a <> currentmon self ->
      store self !! a = Some m -> Monitor.name m = k
}.

(** The table with every entry, the active one included, under its own
    name. *)
Record properly_named (self : WorkspaceSwap.t) : Prop := mk_properly_named {
  pn_keys : NoDup (map fst (monitors self));
  pn_values : NoDup (values (monitors self));
  pn_live : forall a, a ∈ values (monitors self) ->
                      (a < length (store self))%nat;
  pn_current : (currentmon self < length (store self))%nat;
  pn_names : forall k a m,
      (k, a) ∈ monitors self -> store self !! a = Some m ->
      Monitor.name m = k
}.

(** [m] relates every state it is run from to the state it leaves,
    whether it returns or raises. *)
Definition keeps {S A} (R : S -> S -> Prop) (m : M S A) : Prop :=
  forall s, R s (snd (m s)).

(** Nothing is forgotten: the table, the objects and the commands sent
    are extended, never cut. *)
Definition grows (self self' : WorkspaceSwap.t) : Prop :=
  monitors self `prefix_of` monitors self'
  /\ (length (store self) <= length (store self'))%nat
  /\ issued self `prefix_of` issued self'.

Definition is_query (c : command) : bool :=
  match c with
  | Monitors | ActiveWorkspace => true
  | FocusWorkspaceOnCurrentMonitor _ => false
  end.

(** Only queries were sent. *)
Definition queried (self self' : WorkspaceSwap.t) : Prop :=
  exists qs, issued self' = (issued self ++ qs)%list
             /\ Forall (fun c => is_query c = true) qs.

(** Queries were sent, then at most one focus request. *)
Definition toggled (self self' : WorkspaceSwap.t) : Prop :=
  exists qs last,
    issued self' = (issued self ++ qs ++ last)%list
    /\ Forall (fun c => is_query c = true) qs
    /\ (last = [] \/ exists w, last = [FocusWorkspaceOnCurrentMonitor w]).

(** Every record's current workspace differs from its previous one:
    what [set_curr_wkspc] asserts. *)
Definition records_sound (self : WorkspaceSwap.t) : Prop :=
  forall a m, store self !! a = Some m ->
              Monitor.curr_wkspc m <> Monitor.prev_wkspc m.

(** The references the tracker holds are to objects, and the records are
    sound. *)
Record healthy (self : WorkspaceSwap.t) : Prop := mk_healthy {
  h_live : forall a, a ∈ values (monitors self) ->
                     (a < length (store self))%nat;
  h_current : (currentmon self < length (store self))%nat;
  h_records : records_sound self
}.

(** The faults that would come from the tracker's own records: the
    assertion of [set_curr_wkspc], and a reference to no object. *)
Definition internal_fault (e : exn) : Prop :=
  e = AssertionError \/ e = OtherException "dangling reference".

(** A failing command fails with an error of the gateway. *)
Definition external_faults (gw : gateway) : Prop :=
  forall n c e, gw n c = Raise e -> ~ internal_fault e.

(** [m] keeps [P], and raises no internal fault from a state with
    [P]. *)
Definition safely {S A} (P : S -> Prop) (m : M S A) : Prop :=
  forall s, P s ->
            P (snd (m s)) /\ forall e, fst (m s) = Raise e -> ~ internal_fault e.

(** The state in which the loop of [load_config] starts. *)
Definition load_config_start (data_regex : string -> option string)
    (activews : ActiveWs) (self : WorkspaceSwap.t) : WorkspaceSwap.t :=
  WorkspaceSwap.mk data_regex (length (store self)) []
    (store self ++ [Monitor.init (aw_monitor activews) (aw_monitorID activews)
                      (Some (aw_id activews))])%list
    (issued self ++ [ActiveWorkspace; Monitors])%list.

(** ** Tracker scenarios *)

(** A pattern that takes the whole payload as its first group. *)
Definition whole_payload (data : string) : option string := Some data.

(** One monitor, DP-1, showing workspace 1 and focused. *)
Definition one_monitor : gateway := fun _ cmd =>
  match cmd with
  | Monitors => Ok (MonitorsReply [mkMonInfo "DP-1" 0 1])
  | ActiveWorkspace => Ok (ActiveWorkspaceReply (mkActiveWs "DP-1" 0 1))
  | FocusWorkspaceOnCurrentMonitor _ => Ok OtherReply
  end.

Definition just_loaded : WorkspaceSwap.t :=
  snd (load_config one_monitor whole_payload blank).

(** The scenario of the specification: DP-1 shows workspace 1 after
    having shown 2, and the toggle is asked for workspace 1. *)
Definition back_on_1 : WorkspaceSwap.t :=
  snd (for_each (handle_event one_monitor 10)
         [HyprEvent.mk "workspace" "2"; HyprEvent.mk "workspace" "1"]
         just_loaded).

Definition back_on_1_resynced : WorkspaceSwap.t :=
  snd (update_monitor_info one_monitor back_on_1).

(** Two monitors, A and B. What the window manager answers changes with
    what the user does between the commands: A is focused showing 1 while
    B shows 2 (commands 0 and 1); later B is focused showing 3 (commands 2
    to 4); from then on A shows 3 and B, focused, shows 1. *)
Definition drift_gateway : gateway := fun n cmd =>
  match cmd with
  | Monitors =>
      Ok (MonitorsReply
            match n with
            | 0 | 1 => [mkMonInfo "A" 0 1; mkMonInfo "B" 1 2]
            | 2 | 3 | 4 => [mkMonInfo "A" 0 1; mkMonInfo "B" 1 3]
            | _ => [mkMonInfo "A" 0 3; mkMonInfo "B" 1 1]
            end%nat)
  | ActiveWorkspace =>
      Ok (ActiveWorkspaceReply
            match n with
            | 0 | 1 => mkActiveWs "A" 0 1
            | 2 | 3 | 4 => mkActiveWs "B" 1 3
            | _ => mkActiveWs "B" 1 1
            end%nat)
  | FocusWorkspaceOnCurrentMonitor _ => Ok OtherReply
  end.

(** Two monitors, A and B. A shows workspace 1 and B, focused, shows 2
    (commands 0 and 1, those of [load_config]). Then A is unplugged: the
    window manager lists B only, and workspace 1 is shown on B. *)
Definition unplug_gateway : gateway := fun n cmd =>
  match cmd with
  | Monitors =>
      Ok (MonitorsReply
            match n with
            | 0 | 1 => [mkMonInfo "A" 0 1; mkMonInfo "B" 1 2]
            | _ => [mkMonInfo "B" 1 1]
            end%nat)
  | ActiveWorkspace =>
      Ok (ActiveWorkspaceReply
            match n with
            | 0 | 1 => mkActiveWs "B" 1 2
            | _ => mkActiveWs "B" 1 1
            end%nat)
  | FocusWorkspaceOnCurrentMonitor _ => Ok OtherReply
  end.

(** The tracker after [load_config] and the event that reports
    workspace 1 on the focused monitor. *)
Definition unplugged : WorkspaceSwap.t :=
  snd ((do* load_config unplug_gateway whole_payload in
        handle_event unplug_gateway 1000 (HyprEvent.mk "workspace" "1"))
         blank).

Definition unplugged_resynced : WorkspaceSwap.t :=
  snd (update_monitor_info unplug_gateway unplugged).

(** The condition of the specification's step, in its words: some
    monitor of the table has [target] as its current workspace and is
    the active monitor, that is, carries the active monitor's name. *)
Definition shown_on_active_monitor (target : Z) (self : WorkspaceSwap.t)
  : bool :=
  match store self !! currentmon self with
  | Some c =>
      existsb
        (fun a =>
           match store self !! a with
           | Some o =>
               bool_decide (Monitor.curr_wkspc o = Some target)
               && bool_decide (Monitor.name o = Monitor.name c)
           | None => false
           end)
        (values (monitors self))
  | None => false
  end.

(** The toggle as the specification states it: the step of
    [do_workspace_change] with that condition. *)
Fixpoint toggle_as_specified (gw : gateway) (depth : nat) (target : Z)
  : M WorkspaceSwap.t unit :=
  match depth with
  | O => throw RecursionError
  | S depth' =>
      do* update_monitor_info gw in
      let* self := get in
      if shown_on_active_monitor target self then
        let* c := deref (currentmon self) in
        match Monitor.prev_wkspc c with
        | None => ret tt
        | Some previous => toggle_as_specified gw depth' previous
        end
      else focus_workspace_on_current_mon gw target
  end.

(** The events that reach the tracker. The toggle for workspace 1
    ([custom>>1]) is handled when the focus has already moved to B, while
    the tracker's reference is still to A's entry; the focus request it
    sends makes the window manager swap the two workspaces, which the
    last four events report. *)
Definition drift_events : list HyprEvent.t :=
  [HyprEvent.mk "focusedmon" "B,2";
   HyprEvent.mk "workspace" "3";
   HyprEvent.mk "focusedmon" "A,1";
   HyprEvent.mk "custom" "1";
   HyprEvent.mk "focusedmon" "B,3";
   HyprEvent.mk "moveworkspacev2" "1,1,B";
   HyprEvent.mk "moveworkspacev2" "3,3,A";
   HyprEvent.mk "workspace" "1"].

Definition drift_run : M WorkspaceSwap.t unit :=
  do* load_config drift_gateway whole_payload in
  for_each (handle_event drift_gateway 1000) drift_events.

Definition drifted : WorkspaceSwap.t := snd (drift_run blank).

Local Close Scope Z_scope.

(** * Properties *)

(** ** Strings *)

Lemma append_cons (c : ascii) (a b : string) :
  String c a ++ b = String c (a ++ b).
Proof. reflexivity. Qed.

Lemma append_nil_l (b : string) : "" ++ b = b.
Proof. reflexivity. Qed.

Lemma literal_sep_Some s r : literal_sep s = Some r <-> s = ">>" ++ r.
Proof.
  rewrite ?append_cons, ?append_nil_l in *.
  destruct s as [|c1 [|c2 t]]; simpl; try (split; discriminate).
  destruct (decide _) as [[-> ->]|Hn]; split; intros H; try discriminate.
  - by injection H as ->.
  - by injection H as ->.
  - injection H as -> -> ->. by destruct Hn.
Qed.



Lemma append_assoc_s (a b c : string) : (a ++ b) ++ c = a ++ (b ++ c).
Proof. induction a as [|x a IH]; rewrite ?append_cons, ?append_nil_l in *; [done|]. by f_equal. Qed.

Lemma append_nil_r (a : string) : a ++ "" = a.
Proof. induction a as [|x a IH]; rewrite ?append_cons, ?append_nil_l in *; [done|]. by f_equal. Qed.

Lemma no_newline_app a b : no_newline (a ++ b) <-> no_newline a /\ no_newline b.
Proof. induction a as [|x a IH]; rewrite ?append_cons, ?append_nil_l in *; simpl; tauto. Qed.

Lemma length_append (a b : string) :
  String.length (a ++ b) = String.length a + String.length b.
Proof. induction a as [|x a IH]; rewrite ?append_cons, ?append_nil_l in *; simpl; [done|]. by f_equal. Qed.

Lemma append_inj_length (a b c d : string) :
  a ++ b = c ++ d -> String.length a = String.length c -> a = c /\ b = d.
Proof.
  revert c. induction a as [|x a IH]; intros [|y c]; rewrite ?append_cons, ?append_nil_l in *; simpl;
    try done.
  intros H Hl. injection H as -> H. destruct (IH c H) as [-> ->]; [lia|done].
Qed.

(** ** The pattern [(.+)>>(.+)] *)

Lemma dot_star_id s : no_newline s -> dot_star s = s.
Proof.
  induction s as [|c t IH]; simpl; [done|]. intros [Hc Ht].
  destruct (decide _); [done|]. by rewrite IH.
Qed.

Lemma dot_star_prefix s : exists rest, s = dot_star s ++ rest.
Proof.
  induction s as [|c t [rest IH]]; simpl; [by exists ""|].
  destruct (decide _); [by exists (String c t)|].
  exists rest. rewrite append_cons. by f_equal.
Qed.

Lemma dot_plus_Some s g : dot_plus s = Some g -> g <> "" /\ exists rest, s = g ++ rest.
Proof.
  unfold dot_plus. destruct (dot_star s) eqn:E; [done|].
  intros [= <-]. split; [done|]. rewrite <- E. apply dot_star_prefix.
Qed.

Lemma dot_plus_id s : no_newline s -> s <> "" -> dot_plus s = Some s.
Proof.
  intros Hn Hs. unfold dot_plus. rewrite dot_star_id by done.
  by destruct s.
Qed.

(** A match at the head of [s] cuts [s] at an occurrence of [>>] with
    text on both sides. *)
Lemma match_here_sound s g1 g2 :
  match_here s = Some (g1, g2) ->
  g1 <> "" /\ g2 <> "" /\ exists rest, s = g1 ++ ">>" ++ g2 ++ rest.
Proof.
  revert g1. induction s as [|c t IH]; intros g1; simpl; [done|].
  destruct (decide _); [done|].
  destruct (match_here t) as [[a b]|] eqn:E.
  - intros [= <- <-]. destruct (IH a eq_refl) as (_ & Hb & rest & ->).
    split; [done|]. split; [done|]. by exists rest.
  - destruct (literal_sep t) as [r|] eqn:El; [|done].
    destruct (dot_plus r) as [g|] eqn:Ed; [|done].
    intros [= <- <-]. apply literal_sep_Some in El as ->.
    apply dot_plus_Some in Ed as (Hg & rest & ->).
    split; [done|]. split; [done|]. by exists rest.
Qed.

(** The first group is greedy: when [>>] occurs with text on both sides,
    the match at the head exists and its first group reaches at least as
    far as that occurrence. *)
Lemma match_here_greedy n d :
  no_newline (n ++ ">>" ++ d) -> n <> "" -> d <> "" ->
  exists g1 g2, match_here (n ++ ">>" ++ d) = Some (g1, g2)
                /\ String.length n <= String.length g1.
Proof.
  induction n as [|c n IH]; [done|]. intros Hn _ Hd.
  rewrite append_cons in Hn |- *. destruct Hn as [Hc Hn].
  cbn [match_here]. destruct (decide (c = newline)); [done|].
  destruct n as [|c' n'].
  - rewrite append_nil_l in Hn |- *. destruct (match_here (">>" ++ d)) as [[a b]|] eqn:E.
    + exists (String c a), b. split; [done|]. simpl. lia.
    + assert (literal_sep (">>" ++ d) = Some d) as -> by by apply literal_sep_Some.
      apply no_newline_app in Hn as [_ Hn].
      rewrite dot_plus_id by done. exists (String c ""), d. done.
  - destruct (IH Hn) as (g1 & g2 & E & Hl); [done..|]. rewrite E.
    exists (String c g1), g2. split; [done|]. simpl in *. lia.
Qed.

(** On a line the second group runs to the end. *)
Lemma match_here_line s g1 g2 :
  no_newline s -> match_here s = Some (g1, g2) -> s = g1 ++ ">>" ++ g2.
Proof.
  revert g1. induction s as [|c t IH]; intros g1 Hs; simpl; [done|].
  destruct Hs as [Hc Ht]. destruct (decide _); [done|].
  destruct (match_here t) as [[a b]|] eqn:E.
  - intros [= <- <-]. rewrite append_cons. f_equal. by apply IH.
  - destruct (literal_sep t) as [r|] eqn:El; [|done].
    apply literal_sep_Some in El as ->.
    apply no_newline_app in Ht as [_ Hr].
    unfold dot_plus. rewrite dot_star_id by done.
    destruct r; [done|]. by intros [= <- <-].
Qed.



(** What [search] returns on a line: the cut at the last occurrence of
    [>>] that has text on both sides. *)
Lemma regex1_search_last n d :
  no_newline (n ++ ">>" ++ d) -> n <> "" -> d <> "" ->
  (forall n' d', n ++ ">>" ++ d = n' ++ ">>" ++ d' -> d' <> "" ->
                 String.length n' <= String.length n) ->
  regex1_search (n ++ ">>" ++ d) = Some (n, d).
Proof.
  intros Hnl Hn Hd Hlast.
  destruct (match_here_greedy n d) as (g1 & g2 & E & Hl); [done..|].
  assert (regex1_search (n ++ ">>" ++ d) = Some (g1, g2)) as ->.
  { destruct (n ++ ">>" ++ d); simpl in *; by rewrite E. }
  destruct (match_here_sound _ _ _ E) as (_ & Hg2 & _).
  pose proof (match_here_line _ _ _ Hnl E) as Heq.
  assert (String.length g1 <= String.length n) by by apply (Hlast g1 g2).
  destruct (append_inj_length n (">>" ++ d) g1 (">>" ++ g2)) as [-> Hd']; [done|lia|].
  rewrite !append_cons, !append_nil_l in Hd'. by injection Hd' as ->.
Qed.

(** ** Reading records from the socket *)

Lemma send_line_cons c t :
  send_line (String c t) = Recv c :: send_line t.
Proof. reflexivity. Qed.

Lemma recv_line_send line : forall buf rest,
  no_newline line ->
  recv_line (send_line line ++ rest)%list buf = Some (Ok (buf ++ line), rest).
Proof.
  induction line as [|c t IH]; intros buf rest Hn.
  - cbn. destruct (decide _); [|done]. by rewrite append_nil_r.
  - destruct Hn as [Hc Ht]. rewrite send_line_cons. cbn [app recv_line].
    destruct (decide _); [done|]. rewrite IH by done.
    by rewrite append_assoc_s.
Qed.

Lemma get_next_event_line line rest :
  no_newline line ->
  get_next_event (send_line line ++ rest)%list =
  match decode_utf8 line with
  | Raise e => Some (Raise e, rest)
  | Ok text =>
      match regex1_search text with
      | None => Some (Ok None, rest)
      | Some (n, d) => Some (Ok (Some (HyprEvent.mk n d)), rest)
      end
  end.
Proof.
  intros Hn. unfold get_next_event. rewrite recv_line_send by done.
  by rewrite append_nil_l.
Qed.

(** X2. Every line is cut at the last [>>] that has text on both sides:
    for a UTF-8 line [n>>d] with [n] and [d] not empty, in which no [>>]
    followed by text stands further right, the event has name [n] and
    data [d]. *)
Lemma get_next_event_last n d rest :
  utf8_valid (n ++ ">>" ++ d) = true ->
  no_newline (n ++ ">>" ++ d) -> n <> "" -> d <> "" ->
  (forall n' d', n ++ ">>" ++ d = n' ++ ">>" ++ d' -> d' <> "" ->
                 String.length n' <= String.length n) ->
  get_next_event (send_line (n ++ ">>" ++ d) ++ rest)%list
  = Some (Ok (Some (HyprEvent.mk n d)), rest).
Proof.
  intros Hu Hnl Hn Hd Hlast. rewrite get_next_event_line by done.
  unfold decode_utf8. rewrite Hu. by rewrite regex1_search_last.
Qed.

Lemma recv_line_shorter chan : forall buf r rest,
  recv_line chan buf = Some (r, rest) -> length rest < length chan.
Proof.
  induction chan as [|[c|] chan IH]; intros buf r rest; cbn [recv_line].
  - done.
  - destruct (decide _).
    + intros [= <- <-]. simpl. lia.
    + intros H. apply IH in H. simpl. lia.
  - intros [= <- <-]. simpl. lia.
Qed.

Lemma get_next_event_shorter chan r rest :
  get_next_event chan = Some (r, rest) -> length rest < length chan.
Proof.
  unfold get_next_event.
  destruct (recv_line chan "") as [[[buf|e] rest']|] eqn:E; [| |done].
  - apply recv_line_shorter in E.
    destruct (decode_utf8 buf) as [text|e].
    + destruct (regex1_search text) as [[n d]|]; by intros [= <- <-].
    + by intros [= <- <-].
  - apply recv_line_shorter in E. by intros [= <- <-].
Qed.

Section MainLoop.

Context {W : Type}.
Variable handler_handle_event : nat -> HyprEvent.t -> W -> result unit * W.

Local Abbreviation mainloop_from := (@mainloop_from W handler_handle_event).
Local Abbreviation mainloop := (@mainloop W handler_handle_event).

Lemma mainloop_from_fuel : forall fuel1 fuel2 chan self,
  length chan < fuel1 -> length chan < fuel2 ->
  mainloop_from fuel1 chan self = mainloop_from fuel2 chan self.
Proof.
  induction fuel1 as [|fuel1 IH]; intros [|fuel2] chan self H1 H2; try lia.
  cbn [EventHandler.mainloop_from]. destruct (running self); [|done].
  destruct (get_next_event chan) as [[r rest]|] eqn:E; [|done].
  apply get_next_event_shorter in E.
  assert (forall s, mainloop_from fuel1 rest s = mainloop_from fuel2 rest s)
    as Hrec by (intros s; apply IH; lia).
  destruct r as [[event|]|e].
  - destruct (dispatch_event _ event self) as [[[]|e] self']; [done|].
    destruct e; done.
  - done.
  - destruct e; done.
Qed.

Lemma mainloop_from_enough fuel chan self :
  length chan < fuel -> mainloop_from fuel chan self = mainloop chan self.
Proof. intros H. apply mainloop_from_fuel; [done|lia]. Qed.

(** The loop's fuel is never used up: on every known stretch of the
    channel it returns, crashes, or is left waiting for more input. *)
Lemma mainloop_not_out_of_fuel chan : forall fuel self,
  length chan < fuel -> mainloop_from fuel chan self <> OutOfFuel.
Proof.
  induction chan as [chan IH] using (induction_ltof1 _ (@length _)).
  unfold ltof in IH. intros [|fuel] self Hf; [lia|].
  cbn [EventHandler.mainloop_from]. destruct (running self); [|done].
  destruct (get_next_event chan) as [[r rest]|] eqn:E; [|done].
  apply get_next_event_shorter in E.
  assert (forall s, mainloop_from fuel rest s <> OutOfFuel) as Hrec
    by (intros s; apply IH; lia).
  destruct r as [[event|]|e].
  - destruct (dispatch_event _ event self) as [[[]|e] self']; [done|].
    destruct e; done.
  - done.
  - destruct e; done.
Qed.

End MainLoop.

(** An undecodable line is not dropped: the decoding error leaves
    [get_next_event]. *)
Lemma get_next_event_undecodable line rest :
  no_newline line -> utf8_valid line = false ->
  get_next_event (send_line line ++ rest)%list
  = Some (Raise UnicodeDecodeError, rest).
Proof.
  intros Hnl Hu. rewrite get_next_event_line by done.
  unfold decode_utf8. by rewrite Hu.
Qed.

(** C1. The first group of the pattern is greedy, so a line with two
    occurrences of [>>] is cut at the last one: the name of the event
    built from [activewindow>>kitty,a>>b] is [activewindow>>kitty,a] and
    its data is [b], not [activewindow] and [kitty,a>>b]. A line whose
    [>>] has nothing after it gives no event at all. *)
Theorem get_next_event_cuts_at_last_separator :
  get_next_event (send_line "activewindow>>kitty,a>>b")
  = Some (Ok (Some (HyprEvent.mk "activewindow>>kitty,a" "b")), [])
  /\ get_next_event (send_line "configreloaded>>") = Some (Ok None, []).
Proof. split; reflexivity. Qed.

(** Where the line has a single [>>], with text on both sides, the name
    is the text before it and the data the text after it. *)
Lemma get_next_event_single_separator n d rest :
  utf8_valid (n ++ ">>" ++ d) = true ->
  no_newline (n ++ ">>" ++ d) -> n <> "" -> d <> "" ->
  (forall n' d', n ++ ">>" ++ d = n' ++ ">>" ++ d' -> n' = n) ->
  get_next_event (send_line (n ++ ">>" ++ d) ++ rest)%list
  = Some (Ok (Some (HyprEvent.mk n d)), rest).
Proof.
  intros Hu Hnl Hn Hd Hone. rewrite get_next_event_line by done.
  unfold decode_utf8. rewrite Hu. rewrite regex1_search_last; try done.
  intros n' d' Heq _. by rewrite (Hone n' d' Heq).
Qed.

Lemma get_next_event_last_witness :
  get_next_event (send_line ("activewindow>>kitty,a" ++ ">>" ++ "b") ++ [])%list
  = Some (Ok (Some (HyprEvent.mk "activewindow>>kitty,a" "b")), []).
Proof.
  refine (get_next_event_last "activewindow>>kitty,a" "b" [] _ _ _ _ _).
  - reflexivity.
  - repeat split; discriminate.
  - discriminate.
  - discriminate.
  - intros n' d' Heq Hd'. apply (f_equal String.length) in Heq.
    rewrite !length_append in Heq. destruct d'; [done|].
    cbn in Heq |- *. lia.
Defined.

(** ** The registries *)

Lemma for_each_app {S A} (f : A -> M S unit) (l1 l2 : list A) (s : S) :
  for_each f (l1 ++ l2)%list s =
  match for_each f l1 s with
  | (Ok _, s1) => for_each f l2 s1
  | (Raise e, s1) => (Raise e, s1)
  end.
Proof.
  revert s. induction l1 as [|x l1 IH]; intros s; cbn [for_each app].
  - done.
  - unfold bind. destruct (f x s) as [[[]|e] s']; [apply IH|done].
Qed.

Section EngineFacts.

Context {W : Type}.
Variable load_plugin_as_module : string -> W -> result PluginModule * W.
Variable handler_load_config : nat -> ModConfig -> W -> result unit * W.
Variable handler_handle_event : nat -> HyprEvent.t -> W -> result unit * W.

Local Abbreviation load_dispatcher :=
  (@load_dispatcher W load_plugin_as_module handler_load_config).
Local Abbreviation load_all_dispatchers :=
  (@load_all_dispatchers W load_plugin_as_module handler_load_config).
Local Abbreviation unload_dispatcher := (@unload_dispatcher W).
Local Abbreviation dispatch_event := (@dispatch_event W handler_handle_event).
Local Abbreviation call_handle_event :=
  (@call_handle_event W handler_handle_event).
Local Abbreviation try_load :=
  (fun dispname => try_except_Exception (load_dispatcher dispname)).

Implicit Types self : @EventHandler.t W.

Lemma after_calls_nil self : after_calls (world self) [] self = self.
Proof. destruct self. unfold after_calls. cbn. by rewrite app_nil_r. Qed.

Lemma call_handlers_ok event hs : forall self w',
  handled_by handler_handle_event event hs (world self) = Some w' ->
  for_each (fun h => call_handle_event h event) hs self
  = (Ok tt, after_calls w' (map (fun h => HandleEvent h event) hs) self).
Proof.
  induction hs as [|h hs IH]; intros self w'; cbn [handled_by for_each map].
  - intros [= <-]. by rewrite after_calls_nil.
  - destruct (handler_handle_event h event (world self)) as [[[]|e] w1] eqn:E;
      [|done].
    intros Hrest. unfold bind at 1.
    unfold EventHandler.call_handle_event, bind, modify, in_world.
    cbn. rewrite E. rewrite (IH _ w') by done.
    destruct self. unfold after_calls. cbn. by rewrite <- app_assoc.
Qed.

Lemma call_handlers_fault event before h after : forall self w1 e w2,
  handled_by handler_handle_event event before (world self) = Some w1 ->
  handler_handle_event h event w1 = (Raise e, w2) ->
  for_each (fun h => call_handle_event h event) (before ++ h :: after) self
  = (Raise e,
     after_calls w2 (map (fun h => HandleEvent h event) (before ++ [h])) self).
Proof.
  intros self w1 e w2 Hok Hfault. rewrite for_each_app.
  rewrite (call_handlers_ok _ _ _ w1) by done. cbn [for_each].
  unfold bind at 1.
  unfold EventHandler.call_handle_event, bind, modify, in_world.
  cbn. rewrite Hfault. destruct self.
  unfold after_calls, set_world, log_call. cbn.
  by rewrite map_app, <- app_assoc.
Qed.

(** C5. [dispatch_event] does nothing for an event name without an entry
    in the subscription registry. Otherwise it calls [handle_event] on
    the subscribed handlers in the order of the list, which is the order
    of registration: on all of them when none faults, and up to and
    including the first one that faults otherwise; the handlers after it
    are not called, and the fault leaves [dispatch_event]. *)
Theorem dispatch_event_in_registration_order (event : HyprEvent.t) self :
  (dispatchers self !! HyprEvent.name event = None ->
   dispatch_event event self = (Ok tt, self))
  /\ (forall hs, dispatchers self !! HyprEvent.name event = Some hs ->
      (forall w',
         handled_by handler_handle_event event hs (world self) = Some w' ->
         dispatch_event event self
         = (Ok tt,
            after_calls w' (map (fun h => HandleEvent h event) hs) self))
      /\ (forall before h after w1 e w2,
         hs = (before ++ h :: after)%list ->
         handled_by handler_handle_event event before (world self) = Some w1 ->
         handler_handle_event h event w1 = (Raise e, w2) ->
         dispatch_event event self
         = (Raise e,
            after_calls w2
              (map (fun h => HandleEvent h event) (before ++ [h])) self))).
Proof.
  unfold EventHandler.dispatch_event, bind, get. split.
  - by intros ->.
  - intros hs ->. split.
    + intros w' Hok. by apply call_handlers_ok.
    + intros before h after w1 e w2 -> Hok Hfault.
      by apply (call_handlers_fault _ _ _ _ _ w1).
Qed.

(** *** Loading *)

Lemma set_dispatchers_twice d d' self :
  set_dispatchers d (set_dispatchers d' self) = set_dispatchers d self.
Proof. done. Qed.

Lemma subscribe_eq h event self :
  subscribe h event self
  = (Ok tt,
     set_dispatchers
       (<[event := (default [] (dispatchers self !! event) ++ [h])%list]>
          (dispatchers self)) self).
Proof.
  unfold subscribe, modify. by destruct (dispatchers self !! event).
Qed.

(** The subscription loop of [load_dispatcher] cannot fail, and touches
    the subscription registry only. *)
Lemma for_each_subscribe h events : forall self,
  exists d, for_each (subscribe h) events self = (Ok tt, set_dispatchers d self).
Proof.
  induction events as [|event events IH]; intros self; cbn [for_each].
  - exists (dispatchers self). by destruct self.
  - unfold bind. rewrite subscribe_eq.
    destruct (IH (set_dispatchers
      (<[event := (default [] (dispatchers self !! event) ++ [h])%list]>
         (dispatchers self)) self)) as [d ->].
    by exists d.
Qed.

(** [load_dispatcher], step by step. *)
Lemma load_dispatcher_eq dispname self :
  load_dispatcher dispname self =
  match load_plugin_as_module dispname (world self) with
  | (Raise e, w) => (Raise e, set_world w self)
  | (Ok module, w) =>
      let h := mod_handler module in
      let self1 :=
        set_handlers (<[mod_name module := h]> (handlers self))
          (set_world w self) in
      match config self !! dispname with
      | None => (Raise PlainException, self1)
      | Some mod_config =>
          let self2 := log_call (LoadConfig h mod_config) self1 in
          match handler_load_config h mod_config w with
          | (Raise e, w') => (Raise e, set_world w' self2)
          | (Ok _, w') =>
              let self3 := set_world w' self2 in
              match config self !! mod_name module with
              | None => (Raise KeyError, self3)
              | Some section =>
                  match subscribes section with
                  | None => (Raise KeyError, self3)
                  | Some events => for_each (subscribe h) events self3
                  end
              end
          end
      end
  end.
Proof.
  unfold EventHandler.load_dispatcher, bind, in_world, modify, get.
  destruct (load_plugin_as_module dispname (world self)) as [[module|e] w];
    [|done].
  cbn. destruct (config self !! dispname) as [mod_config|]; [|done].
  cbn. unfold call_load_config, bind, modify, in_world. cbn.
  destruct (handler_load_config _ mod_config w) as [[[]|e] w']; [|done].
  unfold config_subscribes, bind, get, getitem. cbn.
  destruct (config self !! mod_name module) as [section|]; [|done].
  cbn. by destruct (subscribes section).
Qed.

(** A load that fails leaves the subscription registry as it was. *)
Lemma load_dispatcher_fails_before_subscribing dispname self e self' :
  load_dispatcher dispname self = (Raise e, self') ->
  dispatchers self' = dispatchers self /\ config self' = config self.
Proof.
  rewrite load_dispatcher_eq.
  destruct (load_plugin_as_module dispname (world self)) as [[module|e0] w].
  2:{ by intros [= <- <-]. }
  cbn zeta. destruct (config self !! dispname) as [mod_config|].
  2:{ by intros [= <- <-]. }
  destruct (handler_load_config _ mod_config w) as [[[]|e1] w'].
  2:{ by intros [= <- <-]. }
  destruct (config self !! mod_name module) as [section|].
  2:{ by intros [= <- <-]. }
  destruct (subscribes section) as [events|].
  2:{ by intros [= <- <-]. }
  match goal with |- for_each _ _ ?s = _ -> _ =>
    destruct (for_each_subscribe (mod_handler module) events s) as [d ->] end.
  done.
Qed.

Lemma load_dispatcher_without_section dispname self module w :
  load_plugin_as_module dispname (world self) = (Ok module, w) ->
  config self !! dispname = None ->
  load_dispatcher dispname self
  = (Raise PlainException,
     set_handlers (<[mod_name module := mod_handler module]> (handlers self))
       (set_world w self)).
Proof.
  intros Hload Hcfg. rewrite load_dispatcher_eq, Hload. cbn zeta.
  by rewrite Hcfg.
Qed.

(** C10. When the configuration has no section for [dispname],
    [load_dispatcher] raises after it has put the handler instance of the
    loaded module into the handler registry: the instance is registered
    in the state the failure leaves, its [load_config] was never called,
    and nothing was subscribed. The registry is left changed unless that
    very instance was registered under the name before. *)
Theorem load_dispatcher_registers_before_config_check
    (dispname : string) self (module : PluginModule) (w : W) :
  load_plugin_as_module dispname (world self) = (Ok module, w) ->
  config self !! dispname = None ->
  exists self',
    load_dispatcher dispname self = (Raise PlainException, self')
    /\ handlers self'
       = <[mod_name module := mod_handler module]> (handlers self)
    /\ handlers self' !! mod_name module = Some (mod_handler module)
    /\ (handlers self !! mod_name module <> Some (mod_handler module) ->
        handlers self' <> handlers self)
    /\ dispatchers self' = dispatchers self
    /\ calls self' = calls self.
Proof.
  intros Hload Hcfg.
  rewrite (load_dispatcher_without_section _ _ _ _ Hload Hcfg).
  eexists. split; [done|]. cbn.
  split; [done|]. split; [by rewrite lookup_insert_eq|].
  split; [|done]. intros Hne Heq. apply Hne. rewrite <- Heq.
  by rewrite lookup_insert_eq.
Qed.

Lemma try_load_raise dispname self e self' :
  load_dispatcher dispname self = (Raise e, self') -> is_Exception e = true ->
  try_load dispname self = (Ok tt, self').
Proof. intros H He. unfold try_except_Exception. by rewrite H, He. Qed.

(** C8. Bulk loading goes through the configured names in order. A name
    whose load fails with an [Exception] is skipped: the subscription
    registry after the failed load is the one before it, and the loop
    goes on with the names after it from the state the failure left. A
    missing configuration section is such a failure. *)
Theorem load_all_dispatchers_skips_failed_load
    self (general : ModConfig) (names1 names2 : list string) (bad : string)
    self1 (e : exn) self1' :
  config self !! "general" = Some general ->
  loaded general = Some (names1 ++ bad :: names2)%list ->
  for_each try_load names1 self = (Ok tt, self1) ->
  load_dispatcher bad self1 = (Raise e, self1') ->
  is_Exception e = true ->
  dispatchers self1' = dispatchers self1
  /\ load_all_dispatchers self = for_each try_load names2 self1'
  /\ (forall module w,
        load_plugin_as_module bad (world self1) = (Ok module, w) ->
        config self1 !! bad = None -> e = PlainException).
Proof.
  intros Hgen Hloaded Hfirst Hbad He. split; [|split].
  - by apply load_dispatcher_fails_before_subscribing in Hbad as [? _].
  - unfold EventHandler.load_all_dispatchers, bind, get, getitem.
    rewrite Hgen. cbn. rewrite Hloaded. cbn.
    rewrite for_each_app, Hfirst. cbn [for_each]. unfold bind at 1.
    by rewrite (try_load_raise _ _ _ _ Hbad He).
  - intros module w Hload Hcfg.
    rewrite (load_dispatcher_without_section _ _ _ _ Hload Hcfg) in Hbad.
    congruence.
Qed.

(** *** Unloading *)

Lemma registrations_subscribe h' event' self h event :
  registrations h event (snd (subscribe h' event' self))
  = registrations h event self
    + (if decide (h' = h /\ event' = event) then 1 else 0).
Proof.
  rewrite subscribe_eq. unfold registrations. cbn.
  destruct (decide (event' = event)) as [->|Hne].
  - rewrite lookup_insert_eq. cbn. rewrite count_occ_app. cbn.
    destruct (Nat.eq_dec h' h), (decide _); try tauto; lia.
  - rewrite lookup_insert_ne by done.
    destruct (decide _); [tauto|lia].
Qed.

Lemma registrations_for_each_subscribe h' events : forall self h event,
  registrations h event (snd (for_each (subscribe h') events self))
  = registrations h event self
    + (if decide (h' = h) then count_occ string_dec events event else 0).
Proof.
  induction events as [|event' events IH]; intros self h event;
    cbn [for_each count_occ].
  - cbn. destruct (decide _); lia.
  - unfold bind. rewrite subscribe_eq. rewrite IH.
    pose proof (registrations_subscribe h' event' self h event) as Hs.
    rewrite subscribe_eq in Hs. cbn [snd] in Hs. rewrite Hs.
    destruct (decide (h' = h)), (string_dec event' event), (decide _);
      try tauto; lia.
Qed.

(** A load, successful or not, of a module with another handler instance
    leaves the registrations of [h] alone; no load changes the
    configuration. *)
Lemma load_dispatcher_config dispname self r self' :
  load_dispatcher dispname self = (r, self') -> config self' = config self.
Proof.
  rewrite load_dispatcher_eq.
  destruct (load_plugin_as_module dispname (world self)) as [[module|e0] w].
  2:{ by intros [= <- <-]. }
  cbn zeta. destruct (config self !! dispname) as [mod_config|].
  2:{ by intros [= <- <-]. }
  destruct (handler_load_config _ mod_config w) as [[[]|e1] w'].
  2:{ by intros [= <- <-]. }
  destruct (config self !! mod_name module) as [section|].
  2:{ by intros [= <- <-]. }
  destruct (subscribes section) as [events|].
  2:{ by intros [= <- <-]. }
  match goal with |- for_each _ _ ?s = _ -> _ =>
    destruct (for_each_subscribe (mod_handler module) events s) as [d ->] end.
  by intros [= <- <-].
Qed.

Lemma load_dispatcher_other_instance h dispname self r self' :
  (forall module w,
      load_plugin_as_module dispname (world self) = (Ok module, w) ->
      mod_handler module <> h) ->
  load_dispatcher dispname self = (r, self') ->
  forall event, registrations h event self' = registrations h event self.
Proof.
  intros Hother. rewrite load_dispatcher_eq.
  destruct (load_plugin_as_module dispname (world self)) as [[module|e0] w].
  2:{ by intros [= <- <-]. }
  specialize (Hother module w eq_refl).
  cbn zeta. destruct (config self !! dispname) as [mod_config|].
  2:{ by intros [= <- <-]. }
  destruct (handler_load_config _ mod_config w) as [[[]|e1] w'].
  2:{ by intros [= <- <-]. }
  destruct (config self !! mod_name module) as [section|].
  2:{ by intros [= <- <-]. }
  destruct (subscribes section) as [events|].
  2:{ by intros [= <- <-]. }
  intros Hrun event.
  match type of Hrun with for_each _ _ ?s = _ =>
    pose proof (registrations_for_each_subscribe
                  (mod_handler module) events s h event) as Hreg end.
  rewrite Hrun in Hreg. cbn [snd] in Hreg. rewrite Hreg.
  destruct (decide _); [done|]. unfold registrations. cbn. lia.
Qed.

(** A successful load registers the module's handler under the module's
    name and subscribes it once for each entry of its [subscribes]. *)
Lemma load_dispatcher_registers dispname self self' module w :
  load_plugin_as_module dispname (world self) = (Ok module, w) ->
  load_dispatcher dispname self = (Ok tt, self') ->
  exists section events,
    config self !! mod_name module = Some section
    /\ subscribes section = Some events
    /\ forall event,
        registrations (mod_handler module) event self'
        = registrations (mod_handler module) event self
          + count_occ string_dec events event.
Proof.
  intros Hload. rewrite load_dispatcher_eq, Hload.
  cbn zeta. destruct (config self !! dispname) as [mod_config|]; [|done].
  destruct (handler_load_config _ mod_config w) as [[[]|e1] w']; [|done].
  destruct (config self !! mod_name module) as [section|]; [|done].
  destruct (subscribes section) as [events|] eqn:Es; [|done].
  intros Hrun. exists section, events. split; [done|]. split; [done|].
  intros event.
  match type of Hrun with for_each _ _ ?s = _ =>
    pose proof (registrations_for_each_subscribe
                  (mod_handler module) events s (mod_handler module) event)
      as Hreg end.
  rewrite Hrun in Hreg. cbn [snd] in Hreg. rewrite Hreg.
  destruct (decide _); [|done]. unfold registrations. cbn. lia.
Qed.

Lemma further_loads_keep h self self' :
  further_loads load_plugin_as_module handler_load_config h self self' ->
  config self' = config self
  /\ forall event, registrations h event self' = registrations h event self.
Proof.
  induction 1 as [self|self dispname r self1 self2 Hother Hload _ [IHc IHr]].
  - done.
  - split.
    + rewrite IHc. by eapply load_dispatcher_config.
    + intros event. rewrite IHr.
      by eapply load_dispatcher_other_instance.
Qed.

Lemma list_remove_first_count h l :
  1 <= count_occ Nat.eq_dec l h ->
  exists l', list_remove_first h l = Some l'
    /\ forall x, count_occ Nat.eq_dec l' x
                 = count_occ Nat.eq_dec l x - (if decide (x = h) then 1 else 0).
Proof.
  induction l as [|y l IH]; cbn [count_occ list_remove_first]; [lia|].
  destruct (decide (y = h)) as [->|Hne].
  - intros _. exists l. split; [done|]. intros x.
    destruct (Nat.eq_dec h x), (decide (x = h)); try congruence; lia.
  - destruct (Nat.eq_dec y h); [done|]. intros Hc.
    destruct (IH Hc) as (l' & -> & Hl'). exists (y :: l'). split; [done|].
    intros x. cbn [count_occ]. rewrite Hl'.
    destruct (Nat.eq_dec y x), (decide (x = h)); try congruence; lia.
Qed.

Lemma unsubscribe_registered h event self :
  1 <= registrations h event self ->
  exists d,
    unsubscribe h event self = (Ok tt, set_dispatchers d self)
    /\ forall h' event',
        registrations h' event' (set_dispatchers d self)
        = registrations h' event' self
          - (if decide (h' = h /\ event' = event) then 1 else 0).
Proof.
  unfold registrations at 1. intros Hreg.
  unfold unsubscribe, bind, get, getitem.
  destruct (dispatchers self !! event) as [subscribed|] eqn:E;
    [|cbn in Hreg; lia].
  cbn in Hreg |- *.
  destruct (list_remove_first_count h subscribed Hreg) as (l' & -> & Hl').
  eexists. split; [done|]. intros h' event'. unfold registrations. cbn.
  destruct (decide (event = event')) as [<-|Hne].
  - rewrite lookup_insert_eq, E. cbn. rewrite Hl'.
    destruct (decide (h' = h)), (decide _); try tauto; lia.
  - rewrite lookup_insert_ne by done. destruct (decide _); [|lia].
    destruct a. congruence.
Qed.

Lemma for_each_unsubscribe h events : forall self,
  (forall event, count_occ string_dec events event <= registrations h event self) ->
  exists d,
    for_each (unsubscribe h) events self = (Ok tt, set_dispatchers d self)
    /\ forall h' event,
        registrations h' event (set_dispatchers d self)
        = registrations h' event self
          - (if decide (h' = h) then count_occ string_dec events event else 0).
Proof.
  induction events as [|event0 events IH]; intros self Hreg;
    cbn [for_each count_occ].
  - exists (dispatchers self). split; [by destruct self|].
    intros h' event. unfold registrations. cbn. destruct (decide _); lia.
  - destruct (unsubscribe_registered h event0 self) as (d0 & Hrun0 & Hreg0).
    { specialize (Hreg event0). cbn [count_occ] in Hreg.
      destruct (string_dec event0 event0); [lia|done]. }
    unfold bind. rewrite Hrun0.
    destruct (IH (set_dispatchers d0 self)) as (d & Hrun & Hreg').
    { intros event. rewrite Hreg0. specialize (Hreg event).
      cbn [count_occ] in Hreg.
      destruct (string_dec event0 event), (decide _); try tauto; try lia.
      destruct n. by destruct a. }
    rewrite Hrun. exists d. split; [done|]. intros h' event.
    specialize (Hreg' h' event). rewrite set_dispatchers_twice in Hreg'.
    rewrite Hreg', Hreg0.
    destruct (decide (h' = h)), (string_dec event0 event), (decide _);
      try lia; exfalso; intuition congruence.
Qed.

(** The calls a dispatch makes go to handlers of the event's list. *)
Lemma for_each_call_handle_event event hs : forall self r self',
  for_each (fun h => call_handle_event h event) hs self = (r, self') ->
  dispatchers self' = dispatchers self
  /\ exists k, calls self'
       = (calls self ++ map (fun h => HandleEvent h event) (take k hs))%list.
Proof.
  induction hs as [|h hs IH]; intros self r self'; cbn [for_each].
  - intros [= <- <-]. split; [done|]. exists 0. cbn. by rewrite app_nil_r.
  - unfold bind at 1.
    unfold EventHandler.call_handle_event at 1, bind, modify, in_world. cbn.
    destruct (handler_handle_event h event (world self)) as [[[]|e] w'].
    + intros Hrun. apply IH in Hrun as [Hd [k Hk]]. split; [done|].
      exists (S k). rewrite Hk. cbn. by rewrite <- app_assoc.
    + intros [= <- <-]. split; [done|]. exists 1. cbn. by rewrite take_0.
Qed.

Lemma dispatch_event_calls event self r self' h ev :
  dispatch_event event self = (r, self') ->
  HandleEvent h ev ∈ calls_since self self' ->
  1 <= registrations h (HyprEvent.name event) self.
Proof.
  unfold EventHandler.dispatch_event, bind, get, calls_since, registrations.
  destruct (dispatchers self !! HyprEvent.name event) as [hs|].
  - intros Hrun. apply for_each_call_handle_event in Hrun as [_ [k ->]].
    rewrite drop_app_length. intros Hin.
    apply list_elem_of_fmap in Hin as (h' & [= <- <-] & Hin).
    cbn. apply (proj1 (count_occ_In Nat.eq_dec hs h)).
    apply list_elem_of_In. by eapply subseteq_take.
  - intros [= <- <-]. rewrite drop_all. by intros ?%elem_of_nil.
Qed.

Lemma unload_dispatcher_registered dispname self section events h :
  config self !! dispname = Some section ->
  subscribes section = Some events ->
  handlers self !! dispname = Some h ->
  (forall event, count_occ string_dec events event <= registrations h event self) ->
  exists d,
    unload_dispatcher dispname self
    = (Ok tt, set_handlers (delete dispname (handlers self))
                (set_dispatchers d self))
    /\ forall h' event,
        registrations h' event (set_dispatchers d self)
        = registrations h' event self
          - (if decide (h' = h) then count_occ string_dec events event else 0).
Proof.
  intros Hcfg Hsub Hh Hreg.
  destruct (for_each_unsubscribe h events self Hreg) as (d & Hrun & Hd).
  exists d. split; [|done].
  unfold EventHandler.unload_dispatcher, config_subscribes, bind, get, getitem.
  rewrite Hcfg. cbn. rewrite Hsub. cbn. rewrite Hh. cbn. by rewrite Hrun.
Qed.

(** C6, as the code has it. Let the handler instance [h], absent from
    every subscription list, be registered by one successful
    [load_dispatcher dispname], and let further loads follow that bring
    in other instances and leave [h] registered under [dispname]. Then
    [unload_dispatcher dispname] succeeds, no subscription list contains
    [h] any more, [dispname] is gone from the handler registry, no later
    dispatch calls [h], and the subscriptions of other instances are as
    they were. *)
Theorem unload_dispatcher_detaches_single_registration
    (dispname : string) (h : nat) self0 (module : PluginModule) (w0 : W)
    self1 self :
  (forall event, registrations h event self0 = 0) ->
  load_plugin_as_module dispname (world self0) = (Ok module, w0) ->
  mod_name module = dispname -> mod_handler module = h ->
  load_dispatcher dispname self0 = (Ok tt, self1) ->
  further_loads load_plugin_as_module handler_load_config h self1 self ->
  handlers self !! dispname = Some h ->
  exists self',
    unload_dispatcher dispname self = (Ok tt, self')
    /\ handlers self' !! dispname = None
    /\ (forall event hs, dispatchers self' !! event = Some hs -> h ∉ hs)
    /\ (forall event r self'' ev,
          dispatch_event event self' = (r, self'') ->
          HandleEvent h ev ∉ calls_since self' self'')
    /\ (forall h' event, h' <> h ->
          registrations h' event self' = registrations h' event self).
Proof.
  intros Hfresh Hload Hname Hhandler Hrun Hmore Hreg.
  destruct (load_dispatcher_registers _ _ _ _ _ Hload Hrun)
    as (section & events & Hcfg & Hsub & Hcount).
  rewrite Hname, Hhandler in *.
  pose proof (load_dispatcher_config _ _ _ _ Hrun) as Hcfg1.
  destruct (further_loads_keep _ _ _ Hmore) as [Hcfg2 Hkeep].
  assert (forall event,
             registrations h event self = count_occ string_dec events event)
    as Hexact.
  { intros event. rewrite Hkeep, Hcount, Hfresh. lia. }
  destruct (unload_dispatcher_registered dispname self section events h)
    as (d & Hunload & Hd); [congruence|done|done|intros; rewrite Hexact; lia|].
  eexists. split; [exact Hunload|].
  assert (forall event,
             registrations h event
               (set_handlers (delete dispname (handlers self))
                  (set_dispatchers d self)) = 0) as Hgone.
  { intros event. change (registrations h event (set_dispatchers d self) = 0).
    rewrite Hd, Hexact. destruct (decide _); [lia|done]. }
  split; [apply lookup_delete_eq|]. split; [|split].
  - intros event hs Hhs Hin. specialize (Hgone event).
    unfold registrations in Hgone. rewrite Hhs in Hgone. cbn in Hgone.
    apply list_elem_of_In in Hin.
    apply (count_occ_In Nat.eq_dec) in Hin. lia.
  - intros event r self'' ev Hdispatch Hin.
    apply (dispatch_event_calls _ _ _ _ _ _ Hdispatch) in Hin.
    rewrite Hgone in Hin. lia.
  - intros h' event Hne.
    change (registrations h' event (set_dispatchers d self)
            = registrations h' event self).
    rewrite Hd. destruct (decide _); [done|lia].
Qed.

End EngineFacts.

(** C6, as the specification states it, fails after a reload without an unload.
    With plugins that build a new handler object on each load, the object
    of the first load (0) stays subscribed after [unload_dispatcher] has
    succeeded and emptied the handler registry, and a dispatch still
    calls it. With a plugin that hands out the same object (7) twice, one
    of its two entries stays and the unloaded object itself is still
    called. *)
Lemma unload_after_reload_leaves_a_registration :
  let first := snd (load_dispatcher fresh_loader quiet_load_config
                      "workspaceswap" fresh_engine) in
  let unloaded := snd (reload_then_unload fresh_loader fresh_engine) in
  let unloaded' := snd (reload_then_unload shared_loader fresh_engine) in
  (dispatchers first !! "workspace" = Some [0]
   /\ handlers first !! "workspaceswap" = Some 0)
  /\ (fst (reload_then_unload fresh_loader fresh_engine) = Ok tt
      /\ handlers unloaded !! "workspaceswap" = None
      /\ dispatchers unloaded !! "workspace" = Some [0]
      /\ calls_since unloaded
           (snd (dispatch_event quiet_handle_event workspace_2 unloaded))
         = [HandleEvent 0 workspace_2])
  /\ (fst (reload_then_unload shared_loader fresh_engine) = Ok tt
      /\ handlers unloaded' !! "workspaceswap" = None
      /\ dispatchers unloaded' !! "workspace" = Some [7]
      /\ calls_since unloaded'
           (snd (dispatch_event quiet_handle_event workspace_2 unloaded'))
         = [HandleEvent 7 workspace_2]).
Proof. vm_compute. repeat split. Qed.

Lemma dispatch_event_in_registration_order_witness :
  dispatch_event (faulty_handle_event 1) workspace_2 subscribed_engine
  = (Raise ValueError,
     after_calls 0
       (map (fun h => HandleEvent h workspace_2) ([0] ++ [1]))
       subscribed_engine)
  /\ dispatch_event (faulty_handle_event 3) workspace_2 subscribed_engine
     = (Ok tt,
        after_calls 0 (map (fun h => HandleEvent h workspace_2) [0; 1; 2])
          subscribed_engine).
Proof.
  split.
  - refine (proj2 (proj2 (dispatch_event_in_registration_order
                            (faulty_handle_event 1) workspace_2
                            subscribed_engine) [0; 1; 2] _)
                  [0] 1 [2] 0 ValueError 0 _ _ _); reflexivity.
  - refine (proj1 (proj2 (dispatch_event_in_registration_order
                            (faulty_handle_event 3) workspace_2
                            subscribed_engine) [0; 1; 2] _) 0 _);
      reflexivity.
Defined.

Lemma load_dispatcher_registers_before_config_check_witness :
  exists self',
    load_dispatcher fresh_loader quiet_load_config "missing" fresh_engine
    = (Raise PlainException, self')
    /\ handlers self' = <["missing" := 0]> (handlers fresh_engine)
    /\ handlers self' !! "missing" = Some 0
    /\ (handlers fresh_engine !! "missing" <> Some 0 ->
        handlers self' <> handlers fresh_engine)
    /\ dispatchers self' = dispatchers fresh_engine
    /\ calls self' = calls fresh_engine.
Proof.
  refine (load_dispatcher_registers_before_config_check
            fresh_loader quiet_load_config "missing" fresh_engine
            (mkModule "missing" 0) 1 _ _); reflexivity.
Defined.

Lemma load_all_dispatchers_skips_failed_load_witness :
  dispatchers failed_one = dispatchers loaded_one
  /\ load_all_dispatchers fresh_loader quiet_load_config fresh_engine
     = for_each
         (fun dispname =>
            try_except_Exception
              (load_dispatcher fresh_loader quiet_load_config dispname))
         ["duckypad"] failed_one
  /\ (forall module w,
        fresh_loader "missing" (world loaded_one) = (Ok module, w) ->
        config loaded_one !! "missing" = None ->
        PlainException = PlainException).
Proof.
  refine (load_all_dispatchers_skips_failed_load
            fresh_loader quiet_load_config fresh_engine
            (mkModConfig (Some ["workspaceswap"; "missing"; "duckypad"]) None)
            ["workspaceswap"] ["duckypad"] "missing"
            loaded_one PlainException failed_one _ _ _ _ _);
    vm_compute; reflexivity.
Defined.

Lemma unload_dispatcher_detaches_single_registration_witness :
  let self :=
    snd (load_dispatcher fresh_loader quiet_load_config "duckypad" loaded_one)
  in
  exists self',
    unload_dispatcher "workspaceswap" self = (Ok tt, self')
    /\ handlers self' !! "workspaceswap" = None
    /\ (forall event hs, dispatchers self' !! event = Some hs -> 0 ∉ hs)
    /\ (forall event r self'' ev,
          dispatch_event quiet_handle_event event self' = (r, self'') ->
          HandleEvent 0 ev ∉ calls_since self' self'')
    /\ (forall h' event, h' <> 0 ->
          registrations h' event self' = registrations h' event self).
Proof.
  refine (unload_dispatcher_detaches_single_registration
            fresh_loader quiet_load_config quiet_handle_event
            "workspaceswap" 0 fresh_engine (mkModule "workspaceswap" 0) 1
            loaded_one _ _ _ _ _ _ _ _).
  - intros event. reflexivity.
  - reflexivity.
  - reflexivity.
  - reflexivity.
  - vm_compute. reflexivity.
  - apply (further_load fresh_loader quiet_load_config 0 loaded_one
             "duckypad" (Ok tt)
             (snd (load_dispatcher fresh_loader quiet_load_config "duckypad"
                     loaded_one))
             (snd (load_dispatcher fresh_loader quiet_load_config "duckypad"
                     loaded_one))).
    + intros module w [= <- <-]. discriminate.
    + vm_compute. reflexivity.
    + apply further_none.
  - vm_compute. reflexivity.
Defined.

(** ** Monitor records *)

(** The record is unchanged by an assignment of its current value, and
    takes the new value, with the old one as previous, otherwise. On the
    first path the final [assert] fails exactly when the record already
    had [curr_wkspc = prev_wkspc]. *)
Lemma set_curr_wkspc_same (m : Monitor.t) (wkspc : Z) :
  Monitor.curr_wkspc m = Some wkspc ->
  Monitor.set_curr_wkspc wkspc m
  = (if bool_decide (Monitor.curr_wkspc m <> Monitor.prev_wkspc m)
     then Ok tt else Raise AssertionError, m).
Proof.
  intros Hc. unfold Monitor.set_curr_wkspc, bind, get, when.
  rewrite bool_decide_eq_false_2 by (by intros H; apply H).
  unfold ret. by destruct (bool_decide _).
Qed.

Lemma set_curr_wkspc_other (m : Monitor.t) (wkspc : Z) :
  Monitor.curr_wkspc m <> Some wkspc ->
  Monitor.set_curr_wkspc wkspc m
  = (Ok tt, Monitor.mk (Monitor.name m) (Monitor.id m) (Some wkspc)
              (Monitor.curr_wkspc m)).
Proof.
  intros Hc. unfold Monitor.set_curr_wkspc, bind, get, when, modify.
  rewrite bool_decide_eq_true_2 by done. cbn.
  rewrite bool_decide_eq_true_2; [done|]. congruence.
Qed.

Lemma set_curr_wkspc_invariant (m m' : Monitor.t) (wkspc : Z) :
  Monitor.set_curr_wkspc wkspc m = (Ok tt, m') ->
  Monitor.curr_wkspc m' = Some wkspc
  /\ Monitor.curr_wkspc m' <> Monitor.prev_wkspc m'.
Proof.
  destruct (decide (Monitor.curr_wkspc m = Some wkspc)) as [Hc|Hc].
  - rewrite set_curr_wkspc_same by done.
    destruct (bool_decide _) eqn:E; [|done].
    intros [= <-]. by apply bool_decide_eq_true in E.
  - rewrite set_curr_wkspc_other by done. intros [= <-]. cbn.
    split; [done|]. congruence.
Qed.

Lemma set_curr_wkspc_total (m : Monitor.t) (wkspc : Z) :
  Monitor.prev_wkspc m = None
  \/ Monitor.curr_wkspc m <> Monitor.prev_wkspc m ->
  exists m', Monitor.set_curr_wkspc wkspc m = (Ok tt, m').
Proof.
  intros Hinv.
  destruct (decide (Monitor.curr_wkspc m = Some wkspc)) as [Hc|Hc].
  - rewrite set_curr_wkspc_same by done. exists m.
    rewrite bool_decide_eq_true_2; [done|].
    destruct Hinv as [Hp|Hne]; [congruence|done].
  - rewrite set_curr_wkspc_other by done. by eexists.
Qed.

(** C3. For every monitor record: assigning its current value again
    changes neither field; assigning another value makes it current and
    the old current value previous; whenever an assignment returns,
    current and previous differ, and so they do after every sequence of
    assignments; and on a record as the constructor and the assignments
    make them (no previous value yet, or one that differs from the
    current) every sequence of assignments runs to its end. *)
Theorem set_curr_wkspc_history (m : Monitor.t) (wkspc : Z) (ws : list Z) :
  (Monitor.curr_wkspc m = Some wkspc ->
   snd (Monitor.set_curr_wkspc wkspc m) = m)
  /\ (Monitor.curr_wkspc m <> Some wkspc ->
      Monitor.set_curr_wkspc wkspc m
      = (Ok tt, Monitor.mk (Monitor.name m) (Monitor.id m) (Some wkspc)
                  (Monitor.curr_wkspc m)))
  /\ (forall m1,
        Monitor.set_curr_wkspc wkspc m = (Ok tt, m1) ->
        Monitor.curr_wkspc m1 <> Monitor.prev_wkspc m1
        /\ Monitor.set_curr_wkspc wkspc m1 = (Ok tt, m1))
  /\ (forall m',
        for_each Monitor.set_curr_wkspc ws m = (Ok tt, m') -> ws <> [] ->
        Monitor.curr_wkspc m' <> Monitor.prev_wkspc m')
  /\ (Monitor.prev_wkspc m = None
      \/ Monitor.curr_wkspc m <> Monitor.prev_wkspc m ->
      exists m', for_each Monitor.set_curr_wkspc ws m = (Ok tt, m')).
Proof.
  split; [|split; [|split; [|split]]].
  - intros Hc. by rewrite set_curr_wkspc_same.
  - apply set_curr_wkspc_other.
  - intros m1 Hset. apply set_curr_wkspc_invariant in Hset as [Hc Hne].
    split; [done|]. rewrite set_curr_wkspc_same by done.
    by rewrite bool_decide_eq_true_2.
  - revert m. induction ws as [|w ws IH]; intros m m' Hrun Hws; [done|].
    cbn [for_each] in Hrun. unfold bind in Hrun.
    destruct (Monitor.set_curr_wkspc w m) as [[[]|e] m1] eqn:E; [|done].
    destruct ws as [|w' ws'].
    + cbn in Hrun. injection Hrun as <-.
      by apply set_curr_wkspc_invariant in E as [_ ?].
    + by apply (IH m1).
  - revert m. induction ws as [|w ws IH]; intros m Hinv; cbn [for_each].
    + by exists m.
    + destruct (set_curr_wkspc_total m w Hinv) as [m1 E].
      unfold bind. rewrite E. apply IH. right.
      by apply set_curr_wkspc_invariant in E as [_ ?].
Qed.

Lemma set_curr_wkspc_history_witness :
  let m := Monitor.init "DP-1" 0 (Some 1%Z) in
  exists m', for_each Monitor.set_curr_wkspc [2; 2; 3; 1]%Z m = (Ok tt, m').
Proof.
  cbv zeta.
  refine (proj2 (proj2 (proj2 (proj2
            (set_curr_wkspc_history (Monitor.init "DP-1" 0 (Some 1%Z)) 2
               [2; 2; 3; 1]%Z)))) _).
  left. reflexivity.
Defined.

(** ** The tracker *)

Local Open Scope Z_scope.

(** An event that changes the current workspace reaches the object that
    [currentmon] refers to. *)
Lemma handle_event_workspace gw depth (data : string) (wkspcid : Z)
    (self : WorkspaceSwap.t) (m : Monitor.t) :
  py_int data = Some wkspcid ->
  store self !! currentmon self = Some m ->
  handle_event gw depth (HyprEvent.mk "workspace" data) self
  = (fst (Monitor.set_curr_wkspc wkspcid m),
     set_store (<[currentmon self := snd (Monitor.set_curr_wkspc wkspcid m)]>
                  (store self)) self).
Proof.
  intros Hint Hm. unfold handle_event. cbn [HyprEvent.name HyprEvent.data].
  destruct (decide ("workspace" = "focusedmon")) as [H|_]; [discriminate|].
  destruct (decide ("workspace" = "workspace")) as [_|H]; [|done].
  unfold int, bind, get, on_monitor. rewrite Hint. unfold ret.
  cbv beta iota. rewrite Hm.
  by destruct (Monitor.set_curr_wkspc wkspcid m).
Qed.

(** C7. Right after [load_config] the reference [currentmon] is to an
    object of its own (address 0), not to the entry of the monitors
    table for the focused monitor (address 1). The event [workspace>>2]
    is handled without an error and updates that separate object; the
    table's entry for DP-1 keeps current workspace 1 and no previous
    one. *)
Theorem workspace_event_misses_monitors_table :
  let after :=
    snd (handle_event one_monitor 10 (HyprEvent.mk "workspace" "2")
           just_loaded) in
  fst (load_config one_monitor whole_payload blank) = Ok tt
  /\ currentmon just_loaded = 0%nat
  /\ monitors just_loaded = [("DP-1", 1%nat)]
  /\ fst (handle_event one_monitor 10 (HyprEvent.mk "workspace" "2")
            just_loaded) = Ok tt
  /\ monitors after = [("DP-1", 1%nat)]
  /\ store after !! 1%nat = Some (Monitor.mk "DP-1" 0 (Some 1) None)
  /\ store after !! 0%nat = Some (Monitor.mk "DP-1" 0 (Some 2) (Some 1)).
Proof. vm_compute. repeat split. Qed.

(** X3. Where the reference is to an entry of the table, as it is after
    a [focusedmon] event, the entry is what the event updates. *)
Lemma handle_event_workspace_aliased gw depth (data : string) (wkspcid : Z)
    (self : WorkspaceSwap.t) (k : string) (m : Monitor.t) :
  py_int data = Some wkspcid ->
  dict_get k (monitors self) = Some (currentmon self) ->
  store self !! currentmon self = Some m ->
  let self' :=
    snd (handle_event gw depth (HyprEvent.mk "workspace" data) self) in
  monitors self' = monitors self
  /\ currentmon self' = currentmon self
  /\ store self' !! currentmon self
     = Some (snd (Monitor.set_curr_wkspc wkspcid m)).
Proof.
  intros Hint Hk Hm. cbv zeta.
  rewrite (handle_event_workspace _ _ _ _ _ _ Hint Hm). cbn.
  split; [done|]. split; [done|]. apply list_lookup_insert_eq.
  by apply lookup_lt_Some in Hm.
Qed.

Lemma handle_event_workspace_aliased_witness :
  let self :=
    snd (handle_event one_monitor 10 (HyprEvent.mk "focusedmon" "DP-1,1")
           just_loaded) in
  let self' :=
    snd (handle_event one_monitor 10 (HyprEvent.mk "workspace" "2") self) in
  monitors self' = monitors self
  /\ currentmon self' = currentmon self
  /\ store self' !! currentmon self
     = Some (snd (Monitor.set_curr_wkspc 2
                    (Monitor.mk "DP-1" 0 (Some 1) None))).
Proof.
  cbv zeta.
  refine (handle_event_workspace_aliased one_monitor 10 "2" 2
            (snd (handle_event one_monitor 10
                    (HyprEvent.mk "focusedmon" "DP-1,1") just_loaded))
            "DP-1" (Monitor.mk "DP-1" 0 (Some 1) None) _ _ _);
    vm_compute; reflexivity.
Defined.

(** *** One step of the toggle *)

Lemma deref_eq a (m : Monitor.t) (self : WorkspaceSwap.t) :
  store self !! a = Some m -> deref a self = (Ok m, self).
Proof. intros H. unfold deref. by rewrite H. Qed.

Lemma is_current_Some a (o c : Monitor.t) (self : WorkspaceSwap.t) :
  store self !! a = Some o ->
  store self !! currentmon self = Some c ->
  is_current (Some a) self
  = (Ok (bool_decide (Monitor.name o = Monitor.name c)), self).
Proof.
  intros Ho Hc. unfold is_current, bind, get.
  rewrite (deref_eq _ _ _ Ho), (deref_eq _ _ _ Hc). done.
Qed.

(** The monitor that [find_wkspc_mon] returns is the first value of the
    table whose current workspace is the one looked for. *)
Lemma find_wkspc_mon_Some wkspcid (self : WorkspaceSwap.t) a :
  find_wkspc_mon wkspcid false self = (Ok (Some a), self) ->
  a ∈ values (monitors self)
  /\ exists o, store self !! a = Some o
               /\ Monitor.curr_wkspc o = Some wkspcid.
Proof.
  unfold find_wkspc_mon, bind, get, ret. intros [= Hfind].
  apply find_some in Hfind as [Hin Hp]. split; [by apply list_elem_of_In|].
  destruct (store self !! a) as [o|]; [|done].
  exists o. split; [done|]. by apply bool_decide_eq_true in Hp.
Qed.

Lemma focus_workspace_on_current_mon_eq gw wkspcid (self : WorkspaceSwap.t) :
  focus_workspace_on_current_mon gw wkspcid self
  = (match gw (length (issued self))
             (FocusWorkspaceOnCurrentMonitor wkspcid) with
     | Ok _ => Ok tt
     | Raise e => Raise e
     end,
     set_issued
       (issued self ++ [FocusWorkspaceOnCurrentMonitor wkspcid])%list self).
Proof.
  unfold focus_workspace_on_current_mon, bind, send_hyprland_cmd.
  by destruct (gw _ _).
Qed.

(** One call of [do_workspace_change], after its resync has left the
    state [self1] in which [find_wkspc_mon] gives [othermon] and the
    active reference is to the record [c]. If a monitor was found and it
    carries the name of the active monitor, the call stops without a
    command when [c] has no previous workspace, and otherwise goes on as
    the call for the previous workspace. In every other case it sends
    exactly one command, the focus request for the target on the current
    monitor, and stops. *)
Theorem do_workspace_change_step gw (depth : nat) (wkspcid : Z)
    (self self1 : WorkspaceSwap.t) (c : Monitor.t) (othermon : option nat) :
  update_monitor_info gw self = (Ok tt, self1) ->
  store self1 !! currentmon self1 = Some c ->
  find_wkspc_mon wkspcid false self1 = (Ok othermon, self1) ->
  let on_active :=
    exists a o, othermon = Some a /\ store self1 !! a = Some o
                /\ Monitor.name o = Monitor.name c in
  (on_active -> Monitor.prev_wkspc c = None ->
   do_workspace_change gw (S depth) wkspcid self = (Ok tt, self1))
  /\ (on_active -> forall new_wkspcid,
      Monitor.prev_wkspc c = Some new_wkspcid ->
      do_workspace_change gw (S depth) wkspcid self
      = do_workspace_change gw depth new_wkspcid self1)
  /\ (~ on_active ->
      do_workspace_change gw (S depth) wkspcid self
      = (match gw (length (issued self1))
                  (FocusWorkspaceOnCurrentMonitor wkspcid) with
         | Ok _ => Ok tt
         | Raise e => Raise e
         end,
         set_issued
           (issued self1 ++ [FocusWorkspaceOnCurrentMonitor wkspcid])%list
           self1)).
Proof.
  intros Hupd Hc Hfind on_active.
  assert (forall active,
    is_current othermon self1 = (Ok active, self1) ->
    do_workspace_change gw (S depth) wkspcid self
    = if active then
        match Monitor.prev_wkspc c with
        | None => (Ok tt, self1)
        | Some new_wkspcid => do_workspace_change gw depth new_wkspcid self1
        end
      else focus_workspace_on_current_mon gw wkspcid self1) as Hstep.
  { intros active Hactive. cbn [do_workspace_change].
    unfold bind at 1. rewrite Hupd. unfold bind at 1. rewrite Hfind.
    unfold bind at 1. rewrite Hactive. destruct active; [|done].
    unfold bind at 1, get. unfold bind at 1. rewrite (deref_eq _ _ _ Hc).
    by destruct (Monitor.prev_wkspc c). }
  split; [|split].
  - intros (a & o & -> & Ho & Hname) Hprev.
    rewrite (Hstep true), Hprev; [done|].
    rewrite (is_current_Some _ _ _ _ Ho Hc).
    by rewrite bool_decide_eq_true_2.
  - intros (a & o & -> & Ho & Hname) new_wkspcid Hprev.
    rewrite (Hstep true), Hprev; [done|].
    rewrite (is_current_Some _ _ _ _ Ho Hc).
    by rewrite bool_decide_eq_true_2.
  - intros Hnot. rewrite (Hstep false).
    + apply focus_workspace_on_current_mon_eq.
    + destruct othermon as [a|]; [|done].
      destruct (find_wkspc_mon_Some _ _ _ Hfind) as (_ & o & Ho & _).
      rewrite (is_current_Some _ _ _ _ Ho Hc).
      rewrite bool_decide_eq_false_2; [done|].
      intros Hname. apply Hnot. by exists a, o.
Qed.

(** Where a workspace is current on one entry of the table at most, the
    monitor found is the only one that could be meant: the toggle goes
    back to the previous workspace exactly when some entry showing the
    target carries the name of the active monitor. *)
Lemma find_wkspc_mon_unique wkspcid (self : WorkspaceSwap.t) (c : Monitor.t)
    (othermon : option nat) :
  find_wkspc_mon wkspcid false self = (Ok othermon, self) ->
  (forall a b oa ob,
      a ∈ values (monitors self) -> b ∈ values (monitors self) ->
      store self !! a = Some oa -> store self !! b = Some ob ->
      Monitor.curr_wkspc oa = Some wkspcid ->
      Monitor.curr_wkspc ob = Some wkspcid -> a = b) ->
  (exists a o, othermon = Some a /\ store self !! a = Some o
               /\ Monitor.name o = Monitor.name c)
  <-> (exists a o, a ∈ values (monitors self) /\ store self !! a = Some o
                   /\ Monitor.curr_wkspc o = Some wkspcid
                   /\ Monitor.name o = Monitor.name c).
Proof.
  intros Hfind Huniq. split.
  - intros (a & o & -> & Ho & Hname).
    destruct (find_wkspc_mon_Some _ _ _ Hfind) as (Hin & o' & Ho' & Hcurr).
    exists a, o. rewrite Ho in Ho'. injection Ho' as <-. done.
  - intros (a & o & Hin & Ho & Hcurr & Hname).
    destruct othermon as [b|].
    + destruct (find_wkspc_mon_Some _ _ _ Hfind) as (Hinb & ob & Hob & Hcb).
      assert (a = b) as <- by by eapply Huniq.
      by exists a, o.
    + exfalso. revert Hfind. unfold find_wkspc_mon, bind, get, ret.
      intros [= Hnone].
      apply list_elem_of_In in Hin.
      pose proof (find_none _ _ Hnone a Hin) as Hp. cbv beta in Hp.
      rewrite Ho in Hp. by apply bool_decide_eq_false in Hp.
Qed.

(** *** A table with the entry of an unplugged monitor *)

(** C4. The step of [do_workspace_change] is not the one the
    specification states when the table still holds the entry of a
    monitor that was unplugged. After [load_config] with A showing 1 and
    B, focused, showing 2, A is unplugged and workspace 1 is shown on B.
    The resync of the toggle for workspace 1 leaves B's entry and the
    active record with current workspace 1 and previous workspace 2, so
    a monitor of the table shows the target and is the active monitor;
    but the entry of A, which the resync does not touch, still has
    current workspace 1 and comes first in the table. [find_wkspc_mon]
    returns it, its name is not the active monitor's, and the call sends
    the focus request for workspace 1 itself and stops, at every depth.
    The step of the specification goes back to the previous workspace:
    it resyncs once more and sends the focus request for workspace 2. *)
Theorem do_workspace_change_stops_at_stale_entry :
  unplugged_resynced
  = WorkspaceSwap.mk whole_payload 0 [("A", 1%nat); ("B", 2%nat)]
      [Monitor.mk "B" 1 (Some 1) (Some 2);
       Monitor.mk "A" 0 (Some 1) None;
       Monitor.mk "B" 1 (Some 1) (Some 2)]
      [ActiveWorkspace; Monitors; Monitors; ActiveWorkspace]
  /\ shown_on_active_monitor 1 unplugged_resynced = true
  /\ find_wkspc_mon 1 false unplugged_resynced
     = (Ok (Some 1%nat), unplugged_resynced)
  /\ (forall depth,
        do_workspace_change unplug_gateway (S depth) 1 unplugged
        = (Ok tt,
           set_issued
             [ActiveWorkspace; Monitors; Monitors; ActiveWorkspace;
              FocusWorkspaceOnCurrentMonitor 1] unplugged_resynced))
  /\ (forall depth,
        toggle_as_specified unplug_gateway (S (S depth)) 1 unplugged
        = (Ok tt,
           set_issued
             [ActiveWorkspace; Monitors; Monitors; ActiveWorkspace;
              Monitors; ActiveWorkspace; FocusWorkspaceOnCurrentMonitor 2]
             unplugged_resynced)).
Proof.
  assert (unplugged_resynced
          = WorkspaceSwap.mk whole_payload 0 [("A", 1%nat); ("B", 2%nat)]
              [Monitor.mk "B" 1 (Some 1) (Some 2);
               Monitor.mk "A" 0 (Some 1) None;
               Monitor.mk "B" 1 (Some 1) (Some 2)]
              [ActiveWorkspace; Monitors; Monitors; ActiveWorkspace]) as Heq
    by (vm_compute; reflexivity).
  split; [exact Heq|]. split; [by rewrite Heq|].
  split; [by rewrite Heq|]. split.
  - intros depth. rewrite Heq. vm_compute. reflexivity.
  - intros depth. rewrite Heq. vm_compute. reflexivity.
Qed.

(** *** A run that does not end *)

Lemma drifted_eq :
  drifted
  = WorkspaceSwap.mk whole_payload 2 [("A", 1%nat); ("B", 2%nat)]
      [Monitor.mk "A" 0 (Some 1) None;
       Monitor.mk "B" 1 (Some 3) (Some 1);
       Monitor.mk "B" 1 (Some 1) (Some 3)]
      [ActiveWorkspace; Monitors; Monitors; ActiveWorkspace;
       FocusWorkspaceOnCurrentMonitor 1].
Proof. vm_compute. reflexivity. Qed.

(** In the state reached, every call for workspace 3 resyncs, finds
    workspace 3 on the entry of A, which carries the name B of the active
    monitor, and calls itself for the previous workspace of the active
    monitor, which is 3. *)
Lemma do_workspace_change_drifted_step depth cmds :
  do_workspace_change drift_gateway (S depth) 3
    (set_issued (issued drifted ++ cmds)%list drifted)
  = do_workspace_change drift_gateway depth 3
      (set_issued
         (issued drifted ++ ((cmds ++ [Monitors]) ++ [ActiveWorkspace]))%list
         drifted).
Proof. rewrite drifted_eq. vm_compute. reflexivity. Qed.

Lemma do_workspace_change_drifted_loop depth : forall cmds,
  do_workspace_change drift_gateway depth 3
    (set_issued (issued drifted ++ cmds)%list drifted)
  = (Raise RecursionError,
     set_issued (issued drifted ++ (cmds ++ resyncs depth))%list drifted).
Proof.
  induction depth as [|depth IH]; intros cmds.
  - cbn [resyncs]. by rewrite app_nil_r.
  - rewrite do_workspace_change_drifted_step, IH. cbn [resyncs].
    by rewrite <- !app_assoc.
Qed.

Lemma do_workspace_change_drifted_first depth :
  do_workspace_change drift_gateway (S depth) 1 drifted
  = do_workspace_change drift_gateway depth 3
      (set_issued (issued drifted ++ [Monitors; ActiveWorkspace])%list
         drifted).
Proof. rewrite drifted_eq. vm_compute. reflexivity. Qed.

(** C2. The tracker reaches, from [load_config] on and through events it
    handles without an error, a state in which the active monitor's
    record shows workspace 1 with the single previous workspace 3, and in
    which the toggle for workspace 1 never returns: whatever depth of
    recursion the interpreter allows is used up, each call sending the
    two commands of its resync and none a focus request. *)
Theorem do_workspace_change_recurses_without_end :
  fst (drift_run blank) = Ok tt
  /\ store drifted !! currentmon drifted
     = Some (Monitor.mk "B" 1 (Some 1) (Some 3))
  /\ prev_chain drifted = [3]
  /\ forall depth,
       do_workspace_change drift_gateway depth 1 drifted
       = (Raise RecursionError,
          set_issued (issued drifted ++ resyncs depth)%list drifted).
Proof.
  split; [by vm_compute|]. split; [by vm_compute|]. split; [by vm_compute|].
  intros [|depth].
  - cbn [resyncs]. rewrite app_nil_r. by rewrite drifted_eq.
  - rewrite do_workspace_change_drifted_first.
    by rewrite do_workspace_change_drifted_loop.
Qed.

(** *** The toggle ends when no entry was renamed *)

Lemma dict_get_None k d : dict_get k d = None <-> k ∉ map fst d.
Proof.
  induction d as [|[k' v] d IH]; cbn.
  - split; [intros _; apply not_elem_of_nil|done].
  - destruct (decide (k' = k)) as [->|Hne].
    + split; [done|]. intros H. destruct H. apply elem_of_cons. by left.
    + rewrite IH. rewrite not_elem_of_cons. cbn. split; [by split|by intros [_ ?]].
Qed.

Lemma dict_get_Some k a d :
  NoDup (map fst d) -> dict_get k d = Some a <-> (k, a) ∈ d.
Proof.
  induction d as [|[k' v] d IH]; cbn; intros Hnd.
  - split; [done|]. by intros ?%elem_of_nil.
  - apply NoDup_cons in Hnd as [Hk' Hnd]. rewrite elem_of_cons.
    destruct (decide (k' = k)) as [->|Hne].
    + split; [intros [= ->]; by left|].
      intros [[= ->]|Hin]; [done|]. destruct Hk'.
      apply list_elem_of_fmap. by exists (k, a).
    + rewrite IH by done. split; [by right|].
      intros [[= -> ->]|Hin]; done.
Qed.

Lemma dict_set_new k a d :
  dict_get k d = None -> dict_set k a d = (d ++ [(k, a)])%list.
Proof.
  induction d as [|[k' v] d IH]; cbn; [done|].
  destruct (decide (k' = k)); [done|]. intros H. by rewrite IH.
Qed.

Lemma dict_get_value k a d : dict_get k d = Some a -> a ∈ values d.
Proof.
  induction d as [|[k' v] d IH]; cbn; [done|].
  destruct (decide (k' = k)).
  - intros [= ->]. apply elem_of_cons. by left.
  - intros H. apply elem_of_cons. right. by apply IH.
Qed.

(** Two keys of a dict of distinct objects hold different objects. *)
Lemma dict_get_inj k k' a d :
  NoDup (values d) -> dict_get k d = Some a -> dict_get k' d = Some a ->
  k = k'.
Proof.
  induction d as [|[k0 v] d IH]; cbn; [done|]. intros Hnd.
  apply NoDup_cons in Hnd as [Hv Hnd].
  destruct (decide (k0 = k)) as [Hk|Hk], (decide (k0 = k')) as [Hk'|Hk'].
  - congruence.
  - intros [= ->] H. destruct Hv. by eapply dict_get_value.
  - intros H [= ->]. destruct Hv. by eapply dict_get_value.
  - by apply IH.
Qed.

Lemma dict_get_app k d d' :
  dict_get k (d ++ d')%list
  = match dict_get k d with
    | Some a => Some a
    | None => dict_get k d'
    end.
Proof.
  induction d as [|[k' v] d IH]; cbn; [done|].
  by destruct (decide (k' = k)).
Qed.

Lemma set_curr_wkspc_name (m m' : Monitor.t) (wkspc : Z) r :
  Monitor.set_curr_wkspc wkspc m = (r, m') ->
  Monitor.name m' = Monitor.name m.
Proof.
  destruct (decide (Monitor.curr_wkspc m = Some wkspc)) as [Hc|Hc].
  - rewrite set_curr_wkspc_same by done. by intros [= _ <-].
  - rewrite set_curr_wkspc_other by done. by intros [= _ <-].
Qed.

Lemma on_monitor_eq {A} a (m : Monitor.t) (method : M Monitor.t A)
    (self : WorkspaceSwap.t) :
  store self !! a = Some m ->
  on_monitor a method self
  = (fst (method m), set_store (<[a := snd (method m)]> (store self)) self).
Proof. intros H. unfold on_monitor. rewrite H. by destruct (method m). Qed.

Lemma resync_one_existing (mon : MonInfo) (self : WorkspaceSwap.t) a m :
  dict_get (mi_name mon) (monitors self) = Some a ->
  store self !! a = Some m ->
  resync_one mon self
  = (fst (Monitor.set_curr_wkspc (mi_activeWorkspace mon) m),
     set_store
       (<[a := snd (Monitor.set_curr_wkspc (mi_activeWorkspace mon) m)]>
          (store self)) self).
Proof.
  intros Hk Ha. unfold resync_one, bind, get. rewrite Hk.
  by apply on_monitor_eq.
Qed.

Lemma resync_one_new (mon : MonInfo) (self : WorkspaceSwap.t) :
  dict_get (mi_name mon) (monitors self) = None ->
  resync_one mon self
  = (Ok tt,
     WorkspaceSwap.mk (triggerdata self) (currentmon self)
       (monitors self ++ [(mi_name mon, length (store self))])%list
       (store self ++ [monitor_of mon])%list (issued self)).
Proof.
  intros Hk. unfold resync_one, bind, get, new_monitor, modify. rewrite Hk.
  cbn. by rewrite dict_set_new.
Qed.

(** One pass of the resync loop keeps the table well named, leaves the
    listed monitor's entry with the listed workspace as its current one,
    and does not touch the entries filed under other names. *)
Lemma resync_one_ok (mon : MonInfo) (self self' : WorkspaceSwap.t) :
  well_named self ->
  resync_one mon self = (Ok tt, self') ->
  well_named self'
  /\ currentmon self' = currentmon self
  /\ (exists a m,
        dict_get (mi_name mon) (monitors self') = Some a
        /\ store self' !! a = Some m
        /\ Monitor.curr_wkspc m = Some (mi_activeWorkspace mon))
  /\ (forall k a m,
        k <> mi_name mon ->
        dict_get k (monitors self) = Some a -> store self !! a = Some m ->
        dict_get k (monitors self') = Some a /\ store self' !! a = Some m).
Proof.
  intros [Hkeys Hvals Hlive Hcur Hnames].
  destruct (dict_get (mi_name mon) (monitors self)) as [a|] eqn:Hk.
  - assert (a < length (store self))%nat as Ha
        by by eapply Hlive, dict_get_value.
    destruct (lookup_lt_is_Some_2 _ _ Ha) as [m Hm].
    rewrite (resync_one_existing _ _ _ _ Hk Hm).
    destruct (Monitor.set_curr_wkspc (mi_activeWorkspace mon) m)
      as [r m'] eqn:Hset.
    cbn [fst snd]. intros [= -> <-].
    pose proof (set_curr_wkspc_name _ _ _ _ Hset) as Hname.
    apply set_curr_wkspc_invariant in Hset as [Hcurr _].
    split; [|split; [done|split]].
    + split; cbn; try done.
      * intros a' Ha'. rewrite length_insert. by apply Hlive.
      * by rewrite length_insert.
      * intros k a' m2 Hin Hne. destruct (decide (a' = a)) as [->|Hneq].
        -- rewrite list_lookup_insert_eq by done. intros [= <-].
           rewrite Hname. by eapply Hnames.
        -- rewrite list_lookup_insert_ne by done. by eapply Hnames.
    + exists a, m'. cbn. split; [done|]. split; [|done].
      by apply list_lookup_insert_eq.
    + intros k a' m2 Hne Hk' Hm2. cbn. split; [done|].
      rewrite list_lookup_insert_ne; [done|]. intros <-.
      apply Hne. by eapply dict_get_inj.
  - rewrite (resync_one_new _ _ Hk). intros [= <-].
    assert (length (store self) ∉ values (monitors self)) as Hfresh.
    { intros Hin. apply Hlive in Hin. lia. }
    split; [|split; [done|split]].
    + split; cbn.
      * rewrite map_app. cbn. apply NoDup_app. split; [done|].
        split; [|apply NoDup_singleton].
        intros k Hin ->%list_elem_of_singleton.
        by apply dict_get_None in Hk.
      * unfold values. rewrite map_app. cbn. apply NoDup_app. split; [done|].
        split; [|apply NoDup_singleton].
        by intros a Hin ->%list_elem_of_singleton.
      * intros a. unfold values. rewrite map_app, length_app. cbn.
        intros [Hin| ->%list_elem_of_singleton]%elem_of_app; [|lia].
        apply Hlive in Hin. lia.
      * rewrite length_app. cbn. lia.
      * intros k a m [Hin|[= -> ->]%list_elem_of_singleton]%elem_of_app Hne.
        -- assert (a < length (store self))%nat as Ha.
           { apply Hlive, list_elem_of_fmap. by exists (k, a). }
           rewrite lookup_app_l by done. by eapply Hnames.
        -- rewrite list_lookup_middle by done. by intros [= <-].
    + exists (length (store self)), (monitor_of mon). cbn.
      rewrite dict_get_app, Hk. cbn.
      destruct (decide _); [|done]. split; [done|].
      by rewrite list_lookup_middle.
    + intros k a m Hne Hk' Hm. cbn. rewrite dict_get_app, Hk'.
      split; [done|]. apply lookup_app_l_Some. done.
Qed.

Lemma resync_loop (moninfo : list MonInfo) :
  forall self self' : WorkspaceSwap.t,
  NoDup (map mi_name moninfo) ->
  well_named self ->
  for_each resync_one moninfo self = (Ok tt, self') ->
  well_named self'
  /\ currentmon self' = currentmon self
  /\ (forall mon, mon ∈ moninfo ->
        exists a m,
          dict_get (mi_name mon) (monitors self') = Some a
          /\ store self' !! a = Some m
          /\ Monitor.curr_wkspc m = Some (mi_activeWorkspace mon))
  /\ (forall k a m,
        k ∉ map mi_name moninfo ->
        dict_get k (monitors self) = Some a -> store self !! a = Some m ->
        dict_get k (monitors self') = Some a /\ store self' !! a = Some m).
Proof.
  induction moninfo as [|mon moninfo IH]; intros self self' Hnd Hwn;
    cbn [for_each].
  - intros [= <-]. split; [done|]. split; [done|].
    split; [by intros mon ?%elem_of_nil|done].
  - unfold bind.
    destruct (resync_one mon self) as [[[]|e] self1] eqn:Hone; [|done].
    intros Hrest. cbn [map] in Hnd. apply NoDup_cons in Hnd as [Hfresh Hnd].
    destruct (resync_one_ok _ _ _ Hwn Hone)
      as (Hwn1 & Hcur1 & (a0 & m0 & Hk0 & Hm0 & Hc0) & Hkeep1).
    destruct (IH _ _ Hnd Hwn1 Hrest) as (Hwn' & Hcur' & Hall & Hkeep).
    split; [done|]. split; [congruence|]. split.
    + intros mon' [->|Hin]%elem_of_cons; [|by apply Hall].
      destruct (Hkeep _ _ _ Hfresh Hk0 Hm0) as [Hk' Hm'].
      by exists a0, m0.
    + intros k a m Hk Hget Hm. cbn [map] in Hk.
      apply not_elem_of_cons in Hk as [Hne Hk].
      destruct (Hkeep1 _ _ _ Hne Hget Hm) as [Hget1 Hm1].
      by apply Hkeep.
Qed.

Lemma well_named_set_issued cmds (self : WorkspaceSwap.t) :
  well_named self -> well_named (set_issued cmds self).
Proof. by intros []. Qed.

(** What a resync that succeeds leaves, when the window manager's two
    answers agree: a well-named table, an active record that carries the
    focused monitor's name and workspace, and no other entry under that
    name with another current workspace. *)
Lemma update_monitor_info_ok gw moninfo activews
    (self self1 : WorkspaceSwap.t) :
  static gw moninfo activews -> consistent moninfo activews ->
  well_named self ->
  update_monitor_info gw self = (Ok tt, self1) ->
  well_named self1
  /\ (exists c, store self1 !! currentmon self1 = Some c
                /\ Monitor.name c = aw_monitor activews
                /\ Monitor.curr_wkspc c = Some (aw_id activews)
                /\ Monitor.curr_wkspc c <> Monitor.prev_wkspc c)
  /\ (forall a m, a ∈ values (monitors self1) ->
        store self1 !! a = Some m ->
        Monitor.name m = aw_monitor activews ->
        Monitor.curr_wkspc m = Some (aw_id activews)).
Proof.
  intros Hstatic [Hnd (mon & Hmon & Hmname & Hmws)] Hwn.
  change (update_monitor_info gw self)
    with ((let* moninfo := query_monitors gw in
           do* for_each resync_one moninfo in
           let* activews := query_activeworkspace gw in
           let* self := get in
           do* on_monitor (currentmon self)
                 (modify (Monitor.set_name (aw_monitor activews))) in
           do* on_monitor (currentmon self)
                 (modify (Monitor.set_id (aw_monitorID activews))) in
           on_monitor (currentmon self)
             (Monitor.set_curr_wkspc (aw_id activews))) self).
  unfold bind at 1. unfold query_monitors, bind at 1, send_hyprland_cmd.
  destruct (Hstatic (length (issued self))) as [-> _]. cbn [ret].
  unfold bind at 1.
  destruct (for_each resync_one moninfo _) as [[[]|e] self2] eqn:Hloop;
    [|done].
  apply resync_loop in Hloop as (Hwn2 & Hcur2 & Hall & _);
    [|done|by apply well_named_set_issued].
  unfold bind at 1. unfold query_activeworkspace, bind at 1, send_hyprland_cmd.
  destruct (Hstatic (length (issued self2))) as [_ ->]. unfold ret at 1.
  unfold bind at 1, get.
  set (self3 := set_issued _ self2).
  assert (well_named self3) as Hwn3 by by apply well_named_set_issued.
  destruct Hwn3 as [Hkeys Hvals Hlive Hcur Hnames].
  destruct (lookup_lt_is_Some_2 _ _ Hcur) as [m0 Hm0].
  unfold bind at 1. rewrite (on_monitor_eq _ _ _ _ Hm0). cbn [fst snd modify].
  unfold bind at 1.
  erewrite on_monitor_eq
    by (cbn; apply list_lookup_insert_eq; by apply lookup_lt_Some in Hm0).
  cbn [fst snd modify].
  erewrite on_monitor_eq
    by (cbn; apply list_lookup_insert_eq; rewrite length_insert;
        by apply lookup_lt_Some in Hm0).
  destruct (Monitor.set_curr_wkspc _ _) as [r c] eqn:Hset. cbn [fst snd].
  intros [= -> <-]. cbn.
  pose proof (set_curr_wkspc_name _ _ _ _ Hset) as Hcname. cbn in Hcname.
  apply set_curr_wkspc_invariant in Hset as [Hccurr Hcne].
  rewrite !list_insert_insert_eq.
  split; [|split].
  - split; cbn; try done.
    + intros a Ha. rewrite length_insert. by apply Hlive.
    + by rewrite length_insert.
    + intros k a m Hin Hne. rewrite list_lookup_insert_ne by done.
      by apply Hnames.
  - exists c. split; [|done]. apply list_lookup_insert_eq.
    by apply lookup_lt_Some in Hm0.
  - intros a m Hin Hm Hname.
    destruct (decide (a = currentmon self3)) as [->|Hne].
    + rewrite list_lookup_insert_eq in Hm by by apply lookup_lt_Some in Hm0.
      by injection Hm as <-.
    + rewrite list_lookup_insert_ne in Hm by done.
      apply list_elem_of_fmap in Hin as ([k a'] & -> & Hin). cbn in *.
      assert (Monitor.name m = k) as Hk by by eapply Hnames.
      destruct (Hall mon Hmon) as (a0 & m1 & Hget & Hm1 & Hcurr).
      assert (dict_get k (monitors self3) = Some a') as Hget'
          by by apply dict_get_Some.
      cbn in Hget'. rewrite Hmname, <- Hname, Hk, Hget' in Hget.
      injection Hget as <-. cbn in Hm. rewrite Hm in Hm1.
      injection Hm1 as <-. by rewrite Hcurr, Hmws.
Qed.

(** One call of the toggle, by cases on its resync. *)
Lemma do_workspace_change_call gw depth wkspcid (self : WorkspaceSwap.t) :
  do_workspace_change gw (S depth) wkspcid self
  = match update_monitor_info gw self with
    | (Raise e, self1) => (Raise e, self1)
    | (Ok _, self1) =>
        match find_wkspc_mon wkspcid false self1 with
        | (Raise e, self2) => (Raise e, self2)
        | (Ok othermon, self2) =>
            match is_current othermon self2 with
            | (Raise e, self3) => (Raise e, self3)
            | (Ok false, self3) =>
                focus_workspace_on_current_mon gw wkspcid self3
            | (Ok true, self3) =>
                match deref (currentmon self3) self3 with
                | (Raise e, self4) => (Raise e, self4)
                | (Ok c, self4) =>
                    match Monitor.prev_wkspc c with
                    | None => (Ok tt, self4)
                    | Some new_wkspcid =>
                        do_workspace_change gw depth new_wkspcid self4
                    end
                end
            end
        end
    end.
Proof.
  cbn [do_workspace_change]. unfold bind at 1.
  destruct (update_monitor_info gw self) as [[[]|e] self1]; [|done].
  unfold bind at 1.
  destruct (find_wkspc_mon wkspcid false self1) as [[othermon|e] self2];
    [|done].
  unfold bind at 1.
  destruct (is_current othermon self2) as [[[]|e] self3]; [|done..].
  unfold bind at 1, get. unfold bind at 1.
  destruct (deref (currentmon self3) self3) as [[c|e] self4]; [|done].
  by destruct (Monitor.prev_wkspc c).
Qed.

Lemma find_wkspc_mon_state wkspcid prev (self : WorkspaceSwap.t) :
  exists othermon, find_wkspc_mon wkspcid prev self = (Ok othermon, self).
Proof. unfold find_wkspc_mon, bind, get, ret. eauto. Qed.

Lemma is_current_state othermon (self : WorkspaceSwap.t) :
  snd (is_current othermon self) = self.
Proof.
  destruct othermon as [a|]; [|done].
  unfold is_current, bind, deref, get.
  destruct (store self !! a); [|done]. cbn.
  by destruct (store self !! currentmon self).
Qed.

(** X1. The toggle in a state without renamed entries, against a window
    manager that stands still and whose answers agree: whatever the
    target, no more than two calls are made. The result is the one of a
    run that is allowed two frames, whatever the depth allowed beyond. *)
Theorem do_workspace_change_ends_when_well_named gw moninfo activews
    (self : WorkspaceSwap.t) (wkspcid : Z) (depth : nat) :
  static gw moninfo activews -> consistent moninfo activews ->
  well_named self -> (2 <= depth)%nat ->
  do_workspace_change gw depth wkspcid self
  = do_workspace_change gw 2 wkspcid self.
Proof.
  intros Hstatic Hcons Hwn Hdepth.
  destruct depth as [|[|depth]]; [lia..|].
  rewrite !(do_workspace_change_call gw _ wkspcid).
  destruct (update_monitor_info gw self) as [[[]|e] self1] eqn:Hupd; [|done].
  destruct (update_monitor_info_ok _ _ _ _ _ Hstatic Hcons Hwn Hupd)
    as (Hwn1 & (c1 & Hc1 & _ & Hcurr1 & Hne1) & _).
  destruct (find_wkspc_mon_state wkspcid false self1) as [othermon1 ->].
  pose proof (is_current_state othermon1 self1) as Hst.
  destruct (is_current othermon1 self1) as [[[]|e] self2];
    cbn in Hst; subst self2; [|done..].
  rewrite (deref_eq _ _ _ Hc1).
  destruct (Monitor.prev_wkspc c1) as [p|] eqn:Hp; [|done].
  (* the second call *)
  rewrite !(do_workspace_change_call gw _ p).
  destruct (update_monitor_info gw self1) as [[[]|e] self2] eqn:Hupd2;
    [|done].
  destruct (update_monitor_info_ok _ _ _ _ _ Hstatic Hcons Hwn1 Hupd2)
    as (Hwn2 & (c2 & Hc2 & Hname2 & Hcurr2 & _) & Hsame).
  destruct (find_wkspc_mon_state p false self2) as [othermon Hfind].
  rewrite Hfind.
  assert (is_current othermon self2 = (Ok false, self2)) as ->; [|done].
  destruct othermon as [a|]; [|done].
  destruct (find_wkspc_mon_Some _ _ _ Hfind) as (Hin & o & Ho & Hocurr).
  rewrite (is_current_Some _ _ _ _ Ho Hc2).
  rewrite bool_decide_eq_false_2; [done|]. intros Hname.
  rewrite Hname2 in Hname. specialize (Hsame _ _ Hin Ho Hname).
  congruence.
Qed.

Lemma do_workspace_change_ends_when_well_named_witness :
  do_workspace_change one_monitor 1000 1 back_on_1
  = do_workspace_change one_monitor 2 1 back_on_1.
Proof.
  refine (do_workspace_change_ends_when_well_named one_monitor
            [mkMonInfo "DP-1" 0 1] (mkActiveWs "DP-1" 0 1)
            back_on_1 1 1000 _ _ _ _).
  - intros n. split; reflexivity.
  - split.
    + cbn. apply NoDup_singleton.
    + exists (mkMonInfo "DP-1" 0 1). split; [|split; reflexivity].
      apply list_elem_of_singleton. reflexivity.
  - split.
    + vm_compute. apply NoDup_singleton.
    + vm_compute. apply NoDup_singleton.
    + intros a Ha. vm_compute in Ha.
      apply list_elem_of_singleton in Ha. subst a. vm_compute. lia.
    + vm_compute. lia.
    + intros k a m Hin Hne Hm. vm_compute in Hin.
      apply list_elem_of_singleton in Hin. injection Hin as -> ->.
      vm_compute in Hm. injection Hm as <-. reflexivity.
  - lia.
Defined.

(** * Further properties of the code *)

Local Close Scope Z_scope.

(** ** The reader *)

(** On a line a match, if there is one, starts at the first character. *)
Lemma regex1_search_line s :
  no_newline s -> regex1_search s = match_here s.
Proof.
  induction s as [|c t IH]; [done|]. intros [Hc Ht].
  cbn [regex1_search].
  destruct (match_here (String c t)) as [g|] eqn:E; [done|].
  rewrite IH by done. revert E. cbn [match_here].
  destruct (decide (c = newline)); [done|].
  by destruct (match_here t) as [[g1 g2]|].
Qed.

(** X4. The event read from a line is a division of that line: name,
    [>>] and data put together give the line back, neither name nor data
    is empty, and the bytes after the line's newline are left on the
    channel. *)
Theorem get_next_event_rebuilds_line (line : string) (rest rest' : list chan_item)
    (event : HyprEvent.t) :
  no_newline line ->
  get_next_event (send_line line ++ rest)%list = Some (Ok (Some event), rest') ->
  rest' = rest
  /\ line = HyprEvent.name event ++ ">>" ++ HyprEvent.data event
  /\ HyprEvent.name event <> "" /\ HyprEvent.data event <> ""
  /\ utf8_valid line = true.
Proof.
  intros Hnl. rewrite get_next_event_line by done. unfold decode_utf8.
  destruct (utf8_valid line) eqn:Hu; [|done].
  rewrite regex1_search_line by done.
  destruct (match_here line) as [[n d]|] eqn:E; [|done].
  intros [= <- <-]. cbn.
  destruct (match_here_sound _ _ _ E) as (Hn & Hd & _).
  split; [done|]. split; [by apply match_here_line|]. done.
Qed.

Lemma get_next_event_rebuilds_line_witness :
  [] = @nil chan_item
  /\ "workspace>>2" = "workspace" ++ ">>" ++ "2"
  /\ "workspace" <> "" /\ "2" <> "" /\ utf8_valid "workspace>>2" = true.
Proof.
  refine (get_next_event_rebuilds_line "workspace>>2" [] []
            (HyprEvent.mk "workspace" "2") _ _).
  - repeat split; discriminate.
  - reflexivity.
Defined.

Lemma recv_line_pending (bytes : string) : forall buf,
  no_newline bytes ->
  recv_line (map Recv (list_ascii_of_string bytes)) buf = None.
Proof.
  induction bytes as [|c t IH]; intros buf Hnl; cbn; [done|].
  destruct Hnl as [Hc Ht]. destruct (decide (c = newline)); [done|].
  by apply IH.
Qed.

Section MoreMainLoop.

Context {W : Type}.
Variable handler_handle_event : nat -> HyprEvent.t -> W -> result unit * W.

Local Abbreviation mainloop := (@mainloop W handler_handle_event).
Local Abbreviation dispatch_event := (@dispatch_event W handler_handle_event).

Implicit Types self : @EventHandler.t W.

(** X5. A record is never delivered before its newline has arrived: on a
    channel that holds only the beginning of a line, [get_next_event]
    does not return, and the running loop is left waiting with its state
    untouched. *)
Theorem get_next_event_waits_for_newline (bytes : string) self :
  no_newline bytes -> running self = true ->
  get_next_event (map Recv (list_ascii_of_string bytes)) = None
  /\ mainloop (map Recv (list_ascii_of_string bytes)) self = Blocked self.
Proof.
  intros Hnl Hrun.
  assert (get_next_event (map Recv (list_ascii_of_string bytes)) = None)
    as Hget by (unfold get_next_event; by rewrite recv_line_pending).
  split; [done|].
  unfold EventHandler.mainloop. cbn [EventHandler.mainloop_from].
  by rewrite Hrun, Hget.
Qed.

Lemma recv_line_interrupted (bytes : string) rest : forall buf,
  no_newline bytes ->
  recv_line (map Recv (list_ascii_of_string bytes) ++ Sigint :: rest)%list buf
  = Some (Raise KeyboardInterrupt, rest).
Proof.
  induction bytes as [|c t IH]; intros buf Hnl; cbn; [done|].
  destruct Hnl as [Hc Ht]. destruct (decide (c = newline)); [done|].
  by apply IH.
Qed.

(** X6. The operator's interrupt, arriving while a line is being read,
    ends the loop in good order: the bytes of the unfinished line are
    dropped, nothing is dispatched, [running] is cleared, the event
    socket is closed, and the rest of the channel is not read. *)
Theorem mainloop_interrupt_shuts_down (bytes : string)
    (rest : list chan_item) self :
  no_newline bytes -> running self = true ->
  mainloop (map Recv (list_ascii_of_string bytes) ++ Sigint :: rest)%list self
  = Returned (set_eventsock_open false (set_running false self)) rest.
Proof.
  intros Hnl Hrun. unfold EventHandler.mainloop.
  rewrite length_app. cbn [length]. rewrite Nat.add_succ_r.
  cbn [EventHandler.mainloop_from]. rewrite Hrun.
  unfold get_next_event. rewrite recv_line_interrupted by done.
  done.
Qed.

(** X7. A line that is not valid UTF-8 is not dropped: the decoding
    error leaves the loop, which stops there without closing the event
    socket and without reading what follows. *)
Theorem mainloop_crashes_on_undecodable_line (line : string)
    (rest : list chan_item) self :
  no_newline line -> utf8_valid line = false -> running self = true ->
  mainloop (send_line line ++ rest)%list self
  = Crashed UnicodeDecodeError self rest.
Proof.
  intros Hnl Hu Hrun. unfold EventHandler.mainloop.
  cbn [EventHandler.mainloop_from]. rewrite Hrun.
  by rewrite get_next_event_undecodable.
Qed.

(** X8. A fault of a handler is not caught: when the handlers before [h]
    in the list of the event's name handle it and [h] raises anything
    but the operator's interrupt, the loop stops with that exception, the
    handlers after [h] are not called, the event socket stays open and
    the rest of the channel is not read. *)
Theorem mainloop_crashes_on_handler_fault (chan rest : list chan_item)
    (event : HyprEvent.t) self (before after : list nat) (h : nat)
    (w1 w2 : W) (e : exn) :
  running self = true ->
  get_next_event chan = Some (Ok (Some event), rest) ->
  dispatchers self !! HyprEvent.name event = Some (before ++ h :: after)%list ->
  handled_by handler_handle_event event before (world self) = Some w1 ->
  handler_handle_event h event w1 = (Raise e, w2) ->
  e <> KeyboardInterrupt ->
  mainloop chan self
  = Crashed e
      (after_calls w2 (map (fun h => HandleEvent h event) (before ++ [h]))
         self) rest
  /\ eventsock_open
       (after_calls w2 (map (fun h => HandleEvent h event) (before ++ [h]))
          self) = eventsock_open self.
Proof.
  intros Hrun Hget Hsub Hok Hfault He. split; [|done].
  unfold EventHandler.mainloop. cbn [EventHandler.mainloop_from].
  rewrite Hrun, Hget.
  assert (dispatch_event event self
          = (Raise e,
             after_calls w2
               (map (fun h => HandleEvent h event) (before ++ [h])) self))
    as ->.
  { unfold EventHandler.dispatch_event, bind, get. rewrite Hsub.
    by apply (call_handlers_fault _ _ _ _ _ _ w1). }
  by destruct e.
Qed.

End MoreMainLoop.

Lemma get_next_event_waits_for_newline_witness :
  get_next_event (map Recv (list_ascii_of_string "work")) = None
  /\ mainloop quiet_handle_event (map Recv (list_ascii_of_string "work"))
       fresh_engine
     = Blocked fresh_engine.
Proof.
  refine (get_next_event_waits_for_newline quiet_handle_event "work"
            fresh_engine _ _).
  - repeat split; discriminate.
  - reflexivity.
Defined.

Lemma mainloop_interrupt_shuts_down_witness :
  mainloop quiet_handle_event
    (map Recv (list_ascii_of_string "work")
     ++ Sigint :: send_line "workspace>>2")%list subscribed_engine
  = Returned
      (set_eventsock_open false (set_running false subscribed_engine))
      (send_line "workspace>>2").
Proof.
  refine (mainloop_interrupt_shuts_down quiet_handle_event "work"
            (send_line "workspace>>2") subscribed_engine _ _).
  - repeat split; discriminate.
  - reflexivity.
Defined.

Lemma mainloop_crashes_on_undecodable_line_witness :
  mainloop quiet_handle_event
    (send_line (String (ascii_of_nat 255) "") ++ send_line "workspace>>2")%list
    subscribed_engine
  = Crashed UnicodeDecodeError subscribed_engine (send_line "workspace>>2").
Proof.
  refine (mainloop_crashes_on_undecodable_line quiet_handle_event
            (String (ascii_of_nat 255) "") (send_line "workspace>>2")
            subscribed_engine _ _ _).
  - vm_compute. repeat split; discriminate.
  - vm_compute. reflexivity.
  - reflexivity.
Defined.

Lemma mainloop_crashes_on_handler_fault_witness :
  mainloop (faulty_handle_event 1) (send_line "workspace>>2") subscribed_engine
  = Crashed ValueError
      (after_calls 0 (map (fun h => HandleEvent h workspace_2) ([0] ++ [1]))
         subscribed_engine) []
  /\ eventsock_open
       (after_calls 0 (map (fun h => HandleEvent h workspace_2) ([0] ++ [1]))
          subscribed_engine)
     = eventsock_open subscribed_engine.
Proof.
  refine (mainloop_crashes_on_handler_fault (faulty_handle_event 1)
            (send_line "workspace>>2") [] workspace_2 subscribed_engine
            [0] [2] 1 0 0 ValueError _ _ _ _ _ _).
  - reflexivity.
  - vm_compute. reflexivity.
  - vm_compute. reflexivity.
  - reflexivity.
  - reflexivity.
  - discriminate.
Defined.

(** ** Loading, reloading and unloading *)

Lemma list_remove_first_appended h l k :
  h ∉ l ->
  list_remove_first h (l ++ h :: replicate k h)
  = Some (l ++ replicate k h)%list.
Proof.
  induction l as [|y l IH]; intros Hl.
  - cbn. by destruct (decide (h = h)).
  - apply not_elem_of_cons in Hl as [Hne Hl].
    cbn [app list_remove_first].
    destruct (decide (y = h)); [congruence|]. by rewrite IH.
Qed.

Section MoreEngineFacts.

Context {W : Type}.
Variable load_plugin_as_module : string -> W -> result PluginModule * W.
Variable handler_load_config : nat -> ModConfig -> W -> result unit * W.
Variable handler_handle_event : nat -> HyprEvent.t -> W -> result unit * W.

Local Abbreviation load_dispatcher :=
  (@load_dispatcher W load_plugin_as_module handler_load_config).
Local Abbreviation load_all_dispatchers :=
  (@load_all_dispatchers W load_plugin_as_module handler_load_config).
Local Abbreviation reload_dispatcher_config :=
  (@reload_dispatcher_config W handler_load_config).
Local Abbreviation unload_dispatcher := (@unload_dispatcher W).
Local Abbreviation try_load :=
  (fun dispname => try_except_Exception (load_dispatcher dispname)).

Implicit Types self : @EventHandler.t W.

(** X9. Reloading a handler's configuration never touches the
    registries: whatever the outcome, the configuration, the subscription
    lists and the handler registry are as before. It calls [load_config]
    once, on the instance registered under the name and with the name's
    section, and without a section or without a registered instance it
    raises [KeyError] having called nothing. *)
Theorem reload_dispatcher_config_keeps_registries (dispname : string) self :
  let out := reload_dispatcher_config dispname self in
  config (snd out) = config self
  /\ dispatchers (snd out) = dispatchers self
  /\ handlers (snd out) = handlers self
  /\ match config self !! dispname, handlers self !! dispname with
     | Some section, Some h =>
         calls (snd out) = (calls self ++ [LoadConfig h section])%list
         /\ (fst out, world (snd out))
            = handler_load_config h section (world self)
     | _, _ => out = (Raise KeyError, self)
     end.
Proof.
  cbv zeta.
  unfold EventHandler.reload_dispatcher_config, bind, get, getitem.
  destruct (config self !! dispname) as [section|]; [|done]. cbn.
  destruct (handlers self !! dispname) as [h|]; [|done]. cbn.
  unfold call_load_config, bind, modify, in_world. cbn.
  by destruct (handler_load_config h section (world self)) as [r w].
Qed.

Lemma subscribed_lists h events : forall self event,
  default [] (dispatchers (snd (for_each (subscribe h) events self)) !! event)
  = (default [] (dispatchers self !! event)
     ++ replicate (count_occ string_dec events event) h)%list.
Proof.
  induction events as [|e events IH]; intros self event; cbn [for_each].
  - cbn. by rewrite app_nil_r.
  - unfold bind. rewrite subscribe_eq. rewrite IH. cbn [count_occ].
    cbn [dispatchers set_dispatchers].
    destruct (string_dec e event) as [->|Hne].
    + rewrite lookup_insert_eq. cbn. by rewrite <- app_assoc.
    + by rewrite lookup_insert_ne.
Qed.

Lemma unsubscribed_lists h events : forall self (base : string -> list nat)
    (extra : string -> nat),
  (forall event, h ∉ base event) ->
  (forall event,
      default [] (dispatchers self !! event)
      = (base event
         ++ replicate (count_occ string_dec events event + extra event) h)%list) ->
  exists d,
    for_each (unsubscribe h) events self = (Ok tt, set_dispatchers d self)
    /\ forall event,
        default [] (d !! event)
        = (base event ++ replicate (extra event) h)%list.
Proof.
  induction events as [|e events IH]; intros self base extra Hbase Hlists;
    cbn [for_each].
  - exists (dispatchers self). split; [by destruct self|]. intros event.
    by rewrite Hlists.
  - pose proof (Hlists e) as He. cbn [count_occ] in He.
    destruct (string_dec e e) as [_|]; [|done]. cbn [Nat.add] in He.
    unfold bind at 1. unfold unsubscribe at 1, bind, get, getitem.
    destruct (dispatchers self !! e) as [l|] eqn:El; cbn in He.
    2:{ by destruct (base e). }
    subst l. unfold ret. cbv beta iota.
    rewrite list_remove_first_appended by done.
    unfold modify.
    match goal with |- context [for_each _ events ?s] =>
      destruct (IH s base extra Hbase) as (d & Hrun & Hd) end.
    { intros event. cbn [dispatchers set_dispatchers].
      destruct (decide (e = event)) as [<-|Hne].
      - by rewrite lookup_insert_eq.
      - rewrite lookup_insert_ne by done. rewrite Hlists. cbn [count_occ].
        by destruct (string_dec e event). }
    rewrite Hrun. exists d. by rewrite set_dispatchers_twice.
Qed.

(** X10. Loading and then unloading a handler is a round trip. When the
    instance the module brings was subscribed nowhere before, a
    successful [load_dispatcher] followed by [unload_dispatcher] succeeds
    and gives back the handler registry without the name and every
    subscription list with the handlers it held before, in their order.
    (An event name that had no list before keeps an empty one.) *)
Theorem load_then_unload_restores (dispname : string) self self1
    (module : PluginModule) (w : W) :
  load_plugin_as_module dispname (world self) = (Ok module, w) ->
  mod_name module = dispname ->
  (forall event, registrations (mod_handler module) event self = 0) ->
  load_dispatcher dispname self = (Ok tt, self1) ->
  exists self2,
    unload_dispatcher dispname self1 = (Ok tt, self2)
    /\ handlers self2 = delete dispname (handlers self)
    /\ (forall event,
          default [] (dispatchers self2 !! event)
          = default [] (dispatchers self !! event))
    /\ config self2 = config self.
Proof.
  intros Hload Hname Hfresh Hrun.
  assert (forall event,
             mod_handler module ∉ default [] (dispatchers self !! event))
    as Hbase.
  { intros event Hin. specialize (Hfresh event). unfold registrations in Hfresh.
    apply list_elem_of_In, (count_occ_In Nat.eq_dec) in Hin. lia. }
  revert Hrun. rewrite load_dispatcher_eq, Hload. cbn zeta. rewrite Hname.
  destruct (config self !! dispname) as [section|] eqn:Hcfg; [|done].
  destruct (handler_load_config _ section w) as [[[]|e] w']; [|done].
  destruct (subscribes section) as [events|] eqn:Hsub; [|done].
  intros Hrun.
  match type of Hrun with for_each _ _ ?s = _ =>
    pose proof (subscribed_lists (mod_handler module) events s) as Hlists;
    pose proof (for_each_subscribe (mod_handler module) events s) as [d Hd]
  end.
  rewrite Hrun in Hlists. cbn [snd] in Hlists.
  rewrite Hd in Hrun. injection Hrun as <-.
  destruct (unsubscribed_lists (mod_handler module) events
              (set_dispatchers d
                 (set_world w'
                    (log_call (LoadConfig (mod_handler module) section)
                       (set_handlers
                          (<[dispname := mod_handler module]> (handlers self))
                          (set_world w self)))))
              (fun event => default [] (dispatchers self !! event))
              (fun _ => 0)) as (d' & Hun & Hd'); [done| |].
  { intros event. rewrite Hlists. cbn. by rewrite Nat.add_0_r. }
  eexists. split.
  - unfold EventHandler.unload_dispatcher, config_subscribes, bind, get,
      getitem.
    cbn. rewrite Hcfg. cbn. rewrite Hsub. cbn.
    rewrite lookup_insert_eq. cbn. rewrite Hun. done.
  - cbn. split; [apply delete_insert_eq|]. split; [|done].
    intros event. rewrite Hd'. cbn. by rewrite app_nil_r.
Qed.

(** X11. A handler that a failed load left in the handler registry (no
    configuration section for its name) cannot be removed again: both
    [unload_dispatcher] and [reload_dispatcher_config] raise [KeyError]
    for the name and leave the state, with the handler registered, as it
    is. *)
Theorem failed_load_cannot_be_unloaded (dispname : string) self
    (module : PluginModule) (w : W) :
  load_plugin_as_module dispname (world self) = (Ok module, w) ->
  mod_name module = dispname ->
  config self !! dispname = None ->
  let self1 := snd (load_dispatcher dispname self) in
  handlers self1 !! dispname = Some (mod_handler module)
  /\ unload_dispatcher dispname self1 = (Raise KeyError, self1)
  /\ reload_dispatcher_config dispname self1 = (Raise KeyError, self1).
Proof.
  intros Hload Hname Hcfg. cbv zeta.
  rewrite (load_dispatcher_without_section _ _ _ _ _ _ Hload Hcfg).
  cbn [snd]. rewrite Hname. split; [cbn; by rewrite lookup_insert_eq|].
  split.
  - unfold EventHandler.unload_dispatcher, config_subscribes, bind, get,
      getitem. cbn. by rewrite Hcfg.
  - unfold EventHandler.reload_dispatcher_config, bind, get, getitem.
    cbn. by rewrite Hcfg.
Qed.

Lemma for_each_try_load names : forall self,
  let out := for_each try_load names self in
  config (snd out) = config self
  /\ (fst out = Ok tt
      \/ exists e, fst out = Raise e /\ is_Exception e = false).
Proof.
  induction names as [|n names IH]; intros self; cbv zeta; cbn [for_each].
  - split; [done|by left].
  - set (R := for_each try_load names) in *.
    unfold bind, try_except_Exception.
    destruct (load_dispatcher n self) as [[[]|e] self1] eqn:Hload.
    + destruct (IH self1) as [Hc Hr]. split; [|done].
      rewrite Hc. by eapply load_dispatcher_config.
    + destruct (is_Exception e) eqn:He.
      * destruct (IH self1) as [Hc Hr]. split; [|done].
        rewrite Hc. by eapply load_dispatcher_config.
      * cbn. split; [by eapply load_dispatcher_config|]. right. by exists e.
Qed.

(** X12. Bulk loading is best effort as a whole: once the configuration
    names the handlers to load, [load_all_dispatchers] returns normally
    whichever of the loads fail, unless one of them raises something
    that is not an [Exception] (the operator's interrupt, an exit); and
    it never changes the configuration. *)
Theorem load_all_dispatchers_best_effort self (general : ModConfig)
    (names : list string) :
  config self !! "general" = Some general ->
  loaded general = Some names ->
  let out := load_all_dispatchers self in
  config (snd out) = config self
  /\ (fst out = Ok tt
      \/ exists e, fst out = Raise e /\ is_Exception e = false).
Proof.
  intros Hgen Hnames. cbv zeta.
  unfold EventHandler.load_all_dispatchers, bind, get, getitem.
  rewrite Hgen. cbn. rewrite Hnames. cbn. apply for_each_try_load.
Qed.

End MoreEngineFacts.

Lemma load_then_unload_restores_witness :
  exists self2,
    unload_dispatcher "workspaceswap" loaded_one = (Ok tt, self2)
    /\ handlers self2 = delete "workspaceswap" (handlers fresh_engine)
    /\ (forall event,
          default [] (dispatchers self2 !! event)
          = default [] (dispatchers fresh_engine !! event))
    /\ config self2 = config fresh_engine.
Proof.
  refine (load_then_unload_restores fresh_loader quiet_load_config
            "workspaceswap" fresh_engine loaded_one
            (mkModule "workspaceswap" 0) 1 _ _ _ _).
  - reflexivity.
  - reflexivity.
  - intros event. unfold registrations. cbn [dispatchers fresh_engine].
    by rewrite lookup_empty.
  - vm_compute. reflexivity.
Defined.

Lemma failed_load_cannot_be_unloaded_witness :
  let self1 :=
    snd (load_dispatcher fresh_loader quiet_load_config "missing" loaded_one)
  in
  handlers self1 !! "missing" = Some (mod_handler (mkModule "missing" 1))
  /\ unload_dispatcher "missing" self1 = (Raise KeyError, self1)
  /\ reload_dispatcher_config quiet_load_config "missing" self1
     = (Raise KeyError, self1).
Proof.
  refine (failed_load_cannot_be_unloaded fresh_loader quiet_load_config
            "missing" loaded_one (mkModule "missing" 1) 2 _ _ _).
  - vm_compute. reflexivity.
  - reflexivity.
  - vm_compute. reflexivity.
Defined.

Lemma load_all_dispatchers_best_effort_witness :
  let out := load_all_dispatchers fresh_loader quiet_load_config fresh_engine
  in
  config (snd out) = config fresh_engine
  /\ (fst out = Ok tt
      \/ exists e, fst out = Raise e /\ is_Exception e = false).
Proof.
  refine (load_all_dispatchers_best_effort fresh_loader quiet_load_config
            fresh_engine
            (mkModConfig (Some ["workspaceswap"; "missing"; "duckypad"]) None)
            ["workspaceswap"; "missing"; "duckypad"] _ _).
  - vm_compute. reflexivity.
  - reflexivity.
Defined.

(** ** The tracker: what no event undoes *)

Local Open Scope Z_scope.

Lemma keeps_bind {S A B} (R : S -> S -> Prop) `{!Transitive R}
    (m : M S A) (k : A -> M S B) :
  keeps R m -> (forall a, keeps R (k a)) -> keeps R (bind m k).
Proof.
  intros Hm Hk s. unfold bind. specialize (Hm s).
  destruct (m s) as [[a|e] s1]; cbn in *; [|done].
  etrans; [exact Hm|]. apply Hk.
Qed.

Lemma keeps_pure {S A} (R : S -> S -> Prop) `{!Reflexive R} (m : M S A) :
  (forall s, snd (m s) = s) -> keeps R m.
Proof. intros Hm s. by rewrite Hm. Qed.

Lemma keeps_for_each {S A} (R : S -> S -> Prop) `{!PreOrder R}
    (body : A -> M S unit) (xs : list A) :
  (forall x, keeps R (body x)) -> keeps R (for_each body xs).
Proof.
  intros Hbody. induction xs as [|x xs IH]; cbn [for_each].
  - intros s. done.
  - apply keeps_bind; [apply _|done|done].
Qed.

Lemma grows_preorder : PreOrder grows.
Proof.
  split.
  - intros s. by repeat split.
  - intros s1 s2 s3 (Hm & Hs & Hi) (Hm' & Hs' & Hi').
    split; [by etrans|]. split; [lia|by etrans].
Qed.

Lemma queried_preorder : PreOrder queried.
Proof.
  split.
  - intros s. exists []. by rewrite app_nil_r.
  - intros s1 s2 s3 (q & Hq & Hf) (q' & Hq' & Hf').
    exists (q ++ q')%list. rewrite Hq', Hq, <- app_assoc.
    split; [done|]. by apply Forall_app.
Qed.

Lemma on_monitor_store {A} a (method : M Monitor.t A) (s : WorkspaceSwap.t) :
  let s' := snd (on_monitor a method s) in
  monitors s' = monitors s /\ issued s' = issued s
  /\ currentmon s' = currentmon s
  /\ length (store s') = length (store s).
Proof.
  cbv zeta. unfold on_monitor. destruct (store s !! a) as [m|]; [|done].
  destruct (method m) as [r m']. cbn. by rewrite length_insert.
Qed.

Lemma resync_one_grows_and_queries (mon : MonInfo) :
  keeps grows (resync_one mon) /\ keeps queried (resync_one mon).
Proof.
  split; intros s.
  - destruct (dict_get (mi_name mon) (monitors s)) as [a|] eqn:Hk.
    + unfold resync_one, bind, get. rewrite Hk.
      destruct (on_monitor_store a
                  (Monitor.set_curr_wkspc (mi_activeWorkspace mon)) s)
        as (Hm & Hi & _ & Hl).
      split; [by rewrite Hm|]. split; [lia|by rewrite Hi].
    + rewrite (resync_one_new _ _ Hk). unfold grows. cbn.
      split; [by apply prefix_app_r|]. split; [|done].
      rewrite length_app. lia.
  - destruct (dict_get (mi_name mon) (monitors s)) as [a|] eqn:Hk.
    + unfold resync_one, bind, get. rewrite Hk.
      destruct (on_monitor_store a
                  (Monitor.set_curr_wkspc (mi_activeWorkspace mon)) s)
        as (_ & Hi & _).
      exists []. by rewrite Hi, app_nil_r.
    + rewrite (resync_one_new _ _ Hk). unfold queried. cbn. exists [].
      by rewrite app_nil_r.
Qed.

Lemma send_query_grows_and_queries gw (c : command) :
  keeps grows (send_hyprland_cmd gw c)
  /\ (is_query c = true -> keeps queried (send_hyprland_cmd gw c)).
Proof.
  split.
  - intros s. unfold send_hyprland_cmd, grows. cbn.
    split; [done|]. split; [done|]. by apply prefix_app_r.
  - intros Hq s. unfold send_hyprland_cmd, queried. cbn. exists [c].
    split; [done|]. by apply Forall_singleton.
Qed.

Lemma on_monitor_grows_and_queries {A} a (method : M Monitor.t A) :
  keeps grows (on_monitor a method) /\ keeps queried (on_monitor a method).
Proof.
  split; intros s;
    destruct (on_monitor_store a method s) as (Hm & Hi & _ & Hl).
  - split; [by rewrite Hm|]. split; [lia|by rewrite Hi].
  - exists []. by rewrite Hi, app_nil_r.
Qed.

Lemma update_monitor_info_grows_and_queries gw :
  keeps grows (update_monitor_info gw)
  /\ keeps queried (update_monitor_info gw).
Proof.
  pose proof grows_preorder. pose proof queried_preorder.
  change (update_monitor_info gw)
    with (let* moninfo := query_monitors gw in
          do* for_each resync_one moninfo in
          let* activews := query_activeworkspace gw in
          let* self := get in
          do* on_monitor (currentmon self)
                (modify (Monitor.set_name (aw_monitor activews))) in
          do* on_monitor (currentmon self)
                (modify (Monitor.set_id (aw_monitorID activews))) in
          on_monitor (currentmon self)
            (Monitor.set_curr_wkspc (aw_id activews))).
  split.
  - apply keeps_bind; [apply _| |intros moninfo].
    { unfold query_monitors. apply keeps_bind; [apply _| |].
      - apply send_query_grows_and_queries.
      - intros []; by apply keeps_pure; [apply _|]. }
    apply keeps_bind; [apply _| |intros _].
    { apply keeps_for_each; [apply _|]. intros mon.
      apply resync_one_grows_and_queries. }
    apply keeps_bind; [apply _| |intros activews].
    { unfold query_activeworkspace. apply keeps_bind; [apply _| |].
      - apply send_query_grows_and_queries.
      - intros []; by apply keeps_pure; [apply _|]. }
    apply keeps_bind; [apply _| |intros self].
    { by apply keeps_pure; [apply _|]. }
    repeat (apply keeps_bind; [apply _| |intros _]);
      apply on_monitor_grows_and_queries.
  - apply keeps_bind; [apply _| |intros moninfo].
    { unfold query_monitors. apply keeps_bind; [apply _| |].
      - by apply send_query_grows_and_queries.
      - intros []; by apply keeps_pure; [apply _|]. }
    apply keeps_bind; [apply _| |intros _].
    { apply keeps_for_each; [apply _|]. intros mon.
      apply resync_one_grows_and_queries. }
    apply keeps_bind; [apply _| |intros activews].
    { unfold query_activeworkspace. apply keeps_bind; [apply _| |].
      - by apply send_query_grows_and_queries.
      - intros []; by apply keeps_pure; [apply _|]. }
    apply keeps_bind; [apply _| |intros self].
    { by apply keeps_pure; [apply _|]. }
    repeat (apply keeps_bind; [apply _| |intros _]);
      apply on_monitor_grows_and_queries.
Qed.

Lemma deref_state a (s : WorkspaceSwap.t) : snd (deref a s) = s.
Proof. unfold deref. by destruct (store s !! a). Qed.

Lemma find_wkspc_mon_same wkspcid prev (s : WorkspaceSwap.t) :
  snd (find_wkspc_mon wkspcid prev s) = s.
Proof. by destruct (find_wkspc_mon_state wkspcid prev s) as [o ->]. Qed.

Lemma do_workspace_change_grows gw depth :
  forall wkspcid, keeps grows (do_workspace_change gw depth wkspcid).
Proof.
  pose proof grows_preorder.
  induction depth as [|depth IH]; intros wkspcid; cbn [do_workspace_change].
  - by apply keeps_pure; [apply _|].
  - apply keeps_bind; [apply _| |intros _].
    { apply update_monitor_info_grows_and_queries. }
    apply keeps_bind; [apply _| |intros othermon].
    { apply keeps_pure; [apply _|]. apply find_wkspc_mon_same. }
    apply keeps_bind; [apply _| |intros [|]].
    { apply keeps_pure; [apply _|]. apply is_current_state. }
    + apply keeps_bind; [apply _| |intros self].
      { by apply keeps_pure; [apply _|]. }
      apply keeps_bind; [apply _| |intros c].
      { apply keeps_pure; [apply _|]. intros s. apply deref_state. }
      destruct (Monitor.prev_wkspc c); [apply IH|].
      by apply keeps_pure; [apply _|].
    + unfold focus_workspace_on_current_mon.
      apply keeps_bind; [apply _| |intros _].
      * apply send_query_grows_and_queries.
      * by apply keeps_pure; [apply _|].
Qed.

Lemma parse_focusedmon_data_state data (s : WorkspaceSwap.t) :
  snd (parse_focusedmon_data data s) = s.
Proof.
  unfold parse_focusedmon_data, bind, index, int.
  destruct (split_comma data !! 0%nat); [|done]. cbn.
  destruct (split_comma data !! 1%nat) as [s1|]; [|done]. cbn.
  by destruct (py_int s1).
Qed.

Lemma parse_moveworkspace_data_state data (s : WorkspaceSwap.t) :
  snd (parse_moveworkspace_data data s) = s.
Proof.
  unfold parse_moveworkspace_data, bind, index, int.
  destruct (split_comma data !! 0%nat) as [s0|]; [|done]. cbn.
  destruct (py_int s0); [|done]. cbn.
  destruct (split_comma data !! 1%nat); [|done]. cbn.
  by destruct (split_comma data !! 2%nat).
Qed.

Lemma int_state (data : string) (s : WorkspaceSwap.t) :
  snd (int data s) = s.
Proof. unfold int. by destruct (py_int data). Qed.

Lemma handle_event_grows gw depth event :
  keeps grows (handle_event gw depth event).
Proof.
  pose proof grows_preorder. unfold handle_event.
  repeat destruct (decide _).
  - apply keeps_bind; [apply _| |intros [monname wkspcid]].
    { apply keeps_pure; [apply _|]. apply parse_focusedmon_data_state. }
    apply keeps_bind; [apply _| |intros self].
    { by apply keeps_pure; [apply _|]. }
    destruct (dict_get monname (monitors self)); intros s; by repeat split.
  - apply keeps_bind; [apply _| |intros wkspcid].
    { apply keeps_pure; [apply _|]. apply int_state. }
    apply keeps_bind; [apply _| |intros self].
    { by apply keeps_pure; [apply _|]. }
    apply on_monitor_grows_and_queries.
  - apply keeps_bind; [apply _| |intros [[wkspcid from] monname]].
    { apply keeps_pure; [apply _|]. apply parse_moveworkspace_data_state. }
    apply keeps_bind; [apply _| |intros self].
    { by apply keeps_pure; [apply _|]. }
    destruct (dict_get monname (monitors self)).
    + apply on_monitor_grows_and_queries.
    + by apply keeps_pure; [apply _|].
  - apply keeps_bind; [apply _| |intros self].
    { by apply keeps_pure; [apply _|]. }
    destruct (triggerdata self (HyprEvent.data event)) as [group1|];
      [|by apply keeps_pure; [apply _|]].
    destruct (py_int group1); [|by apply keeps_pure; [apply _|]].
    apply do_workspace_change_grows.
  - by apply keeps_pure; [apply _|].
Qed.

(** X13. Through any sequence of events that [handle_event] handles,
    whatever the window manager answers and whether the run ends
    normally or with an exception: the monitors table is only extended
    at its end, so that every name that was filed keeps its place and
    its record object; no record object is dropped; and the commands
    sent so far stay sent. (This is about [handle_event] only:
    [load_config] starts a new table.) *)
Theorem handle_event_only_extends_table gw depth (events : list HyprEvent.t)
    (self : WorkspaceSwap.t) :
  let self' := snd (for_each (handle_event gw depth) events self) in
  (exists added, monitors self' = (monitors self ++ added)%list)
  /\ (length (store self) <= length (store self'))%nat
  /\ (exists sent, issued self' = (issued self ++ sent)%list)
  /\ (forall monname a, dict_get monname (monitors self) = Some a ->
                        dict_get monname (monitors self') = Some a).
Proof.
  cbv zeta. pose proof grows_preorder.
  destruct (keeps_for_each grows (handle_event gw depth) events
              (handle_event_grows gw depth) self)
    as ([added Hm] & Hs & Hi).
  split; [by exists added|]. split; [done|]. split; [done|].
  intros monname a Hk. by rewrite Hm, dict_get_app, Hk.
Qed.

(** ** The tracker: what it sends *)

Lemma queried_then_toggled (s s1 s2 : WorkspaceSwap.t) :
  queried s s1 -> toggled s1 s2 -> toggled s s2.
Proof.
  intros (q & Hq & Hf) (q' & last & Hq' & Hf' & Hlast).
  exists (q ++ q')%list, last. rewrite Hq', Hq, <- !app_assoc.
  split; [done|]. split; [by apply Forall_app|done].
Qed.

Lemma toggled_refl (s : WorkspaceSwap.t) : toggled s s.
Proof. exists [], []. rewrite !app_nil_r. repeat split; [done|by left]. Qed.

Lemma do_workspace_change_toggled gw depth :
  forall wkspcid, keeps toggled (do_workspace_change gw depth wkspcid).
Proof.
  induction depth as [|depth IH]; intros wkspcid s.
  - apply toggled_refl.
  - rewrite do_workspace_change_call.
    pose proof (proj2 (update_monitor_info_grows_and_queries gw) s) as Hq.
    destruct (update_monitor_info gw s) as [[[]|e] s1]; cbn [snd] in Hq;
      [|by eapply queried_then_toggled; [|apply toggled_refl]].
    apply (queried_then_toggled _ _ _ Hq).
    destruct (find_wkspc_mon_state wkspcid false s1) as [othermon ->].
    pose proof (is_current_state othermon s1) as Hst.
    destruct (is_current othermon s1) as [[[|]|e] s3]; cbn [snd] in Hst;
      subst s3; [| |apply toggled_refl].
    + pose proof (deref_state (currentmon s1) s1) as Hd.
      destruct (deref (currentmon s1) s1) as [[c|e] s4]; cbn [snd] in Hd;
        subst s4; [|apply toggled_refl].
      destruct (Monitor.prev_wkspc c) as [new_wkspcid|];
        [apply IH|apply toggled_refl].
    + rewrite focus_workspace_on_current_mon_eq. cbn [snd].
      exists [], [FocusWorkspaceOnCurrentMonitor wkspcid].
      split; [done|]. split; [done|]. right. by eexists.
Qed.

(** X14. What the tracker sends to the window manager while it handles
    an event, whatever the answers and whether the handler returns or
    raises: nothing for an event that is not [custom]; for a [custom]
    event state queries, followed by at most one focus request, which is
    then the last command sent. *)
Theorem handle_event_commands gw depth (event : HyprEvent.t)
    (self : WorkspaceSwap.t) :
  let self' := snd (handle_event gw depth event self) in
  exists queries last,
    issued self' = (issued self ++ queries ++ last)%list
    /\ Forall (fun c => is_query c = true) queries
    /\ (last = [] \/ exists w, last = [FocusWorkspaceOnCurrentMonitor w])
    /\ (HyprEvent.name event <> "custom" -> queries = [] /\ last = []).
Proof.
  cbv zeta.
  assert (Hquiet : forall s' : WorkspaceSwap.t, issued s' = issued self ->
            exists queries last,
              issued s' = (issued self ++ queries ++ last)%list
              /\ Forall (fun c => is_query c = true) queries
              /\ (last = [] \/
                  exists w, last = [FocusWorkspaceOnCurrentMonitor w])
              /\ (HyprEvent.name event <> "custom" ->
                  queries = [] /\ last = [])).
  { intros s' Hs'. exists [], []. rewrite Hs', !app_nil_r.
    repeat split; [done|by left]. }
  unfold handle_event. repeat destruct (decide _).
  - apply Hquiet. unfold bind.
    pose proof (parse_focusedmon_data_state (HyprEvent.data event) self) as Hp.
    destruct (parse_focusedmon_data _ self) as [[[monname wkspcid]|e0] s1];
      cbn [snd] in Hp; subst s1; [|done].
    unfold get. by destruct (dict_get monname (monitors self)).
  - apply Hquiet. unfold bind.
    pose proof (int_state (HyprEvent.data event) self) as Hp.
    destruct (int _ self) as [[wkspcid|e0] s1]; cbn [snd] in Hp; subst s1;
      [|done].
    unfold get. apply on_monitor_store.
  - apply Hquiet. unfold bind.
    pose proof (parse_moveworkspace_data_state (HyprEvent.data event) self)
      as Hp.
    destruct (parse_moveworkspace_data _ self)
      as [[[[wkspcid from] monname]|e0] s1]; cbn [snd] in Hp; subst s1;
      [|done].
    unfold get. destruct (dict_get monname (monitors self)); [|done].
    apply on_monitor_store.
  - unfold bind, get.
    destruct (triggerdata self (HyprEvent.data event)) as [group1|];
      [|by apply Hquiet].
    destruct (py_int group1) as [new_wkspc|]; [|by apply Hquiet].
    destruct (do_workspace_change_toggled gw depth new_wkspc self)
      as (queries & last & Hi & Hf & Hlast).
    exists queries, last. by repeat split.
  - by apply Hquiet.
Qed.

(** ** The tracker: the names in the table *)

Lemma dict_set_keys k v d :
  map fst (dict_set k v d)
  = match dict_get k d with
    | Some _ => map fst d
    | None => (map fst d ++ [k])%list
    end.
Proof.
  induction d as [|[k' v'] d IH]; cbn; [done|].
  destruct (decide (k' = k)); cbn; [done|].
  rewrite IH. by destruct (dict_get k d).
Qed.

Lemma dict_set_elem k v d k' a' :
  (k', a') ∈ dict_set k v d -> (k' = k /\ a' = v) \/ (k', a') ∈ d.
Proof.
  induction d as [|[k0 v0] d IH]; cbn.
  - intros [= -> ->]%list_elem_of_singleton. by left.
  - destruct (decide (k0 = k)) as [->|Hne].
    + intros [[= -> ->]|Hin]%elem_of_cons; [by left|].
      right. apply elem_of_cons. by right.
    + intros [[= -> ->]|Hin]%elem_of_cons.
      * right. apply elem_of_cons. by left.
      * destruct (IH Hin) as [?|?]; [by left|]. right.
        apply elem_of_cons. by right.
Qed.

Lemma dict_set_values k v d a :
  a ∈ values (dict_set k v d) -> a = v \/ a ∈ values d.
Proof.
  unfold values. intros ([k' a'] & -> & Hin)%list_elem_of_fmap.
  destruct (dict_set_elem _ _ _ _ _ Hin) as [[_ ->]|Hd]; [by left|].
  right. apply list_elem_of_fmap. by exists (k', a').
Qed.

Lemma dict_set_values_NoDup k v d :
  NoDup (values d) -> v ∉ values d -> NoDup (values (dict_set k v d)).
Proof.
  induction d as [|[k0 v0] d IH]; cbn; intros Hnd Hv.
  - apply NoDup_singleton.
  - apply NoDup_cons in Hnd as [Hv0 Hnd].
    apply not_elem_of_cons in Hv as [Hne Hv].
    destruct (decide (k0 = k)) as [->|Hk]; cbn.
    + by apply NoDup_cons.
    + apply NoDup_cons. split; [|by apply IH].
      intros [->|Hin]%dict_set_values; done.
Qed.

Lemma dict_set_keys_NoDup k v d :
  NoDup (map fst d) -> NoDup (map fst (dict_set k v d)).
Proof.
  intros Hnd. rewrite dict_set_keys.
  destruct (dict_get k d) eqn:Hk; [done|].
  apply NoDup_app. split; [done|]. split; [|apply NoDup_singleton].
  intros k' Hin ->%list_elem_of_singleton. by apply dict_get_None in Hk.
Qed.

(** What the loop of [load_config] keeps: the entries made so far are
    distinct objects, all made after the active record at [base], each
    with the name it is filed under. *)
Lemma file_one_ok (base : nat) (mon : MonInfo) (self : WorkspaceSwap.t) :
  let self' := snd (file_one mon self) in
  file_one mon self = (Ok tt, self')
  /\ triggerdata self' = triggerdata self
  /\ currentmon self' = currentmon self
  /\ issued self' = issued self
  /\ (forall a m, store self !! a = Some m -> store self' !! a = Some m)
  /\ (forall k, k ∈ map fst (monitors self')
                <-> k = mi_name mon \/ k ∈ map fst (monitors self))
  /\ (properly_named self ->
      (base < length (store self))%nat ->
      (forall a, a ∈ values (monitors self) -> (base < a)%nat) ->
      properly_named self'
      /\ (base < length (store self'))%nat
      /\ (forall a, a ∈ values (monitors self') -> (base < a)%nat)).
Proof.
  cbv zeta. unfold file_one, bind, new_monitor, modify. cbn.
  split; [done|]. split; [done|]. split; [done|]. split; [done|].
  split; [|split].
  - intros a m Ha. by apply lookup_app_l_Some.
  - intros k. rewrite dict_set_keys.
    destruct (dict_get (mi_name mon) (monitors self)) as [a0|] eqn:Hk.
    + split; [by right|]. intros [->|Hin]; [|done].
      apply dec_stable. intros Hn. apply dict_get_None in Hn. congruence.
    + rewrite elem_of_app, list_elem_of_singleton. tauto.
  - intros [Hkeys Hvals Hlive Hcur Hnames] Hbase Habove.
    split; [split; cbn|split].
    + by apply dict_set_keys_NoDup.
    + apply dict_set_values_NoDup; [done|].
      intros Hin. apply Hlive in Hin. lia.
    + intros a [->|Hin]%dict_set_values; rewrite length_app; cbn; [lia|].
      apply Hlive in Hin. lia.
    + rewrite length_app. lia.
    + intros k a m [[-> ->]|Hin]%dict_set_elem Hm.
      * rewrite lookup_app_r in Hm by lia.
        rewrite Nat.sub_diag in Hm. by injection Hm as <-.
      * assert (a < length (store self))%nat as Hlt.
        { apply Hlive. apply list_elem_of_fmap. by exists (k, a). }
        rewrite lookup_app_l in Hm by done. by eapply Hnames.
    + rewrite length_app. lia.
    + intros a [->|Hin]%dict_set_values; [done|]. by apply Habove.
Qed.

Lemma file_loop (base : nat) (moninfo : list MonInfo) :
  forall self : WorkspaceSwap.t,
  let self' := snd (for_each file_one moninfo self) in
  for_each file_one moninfo self = (Ok tt, self')
  /\ triggerdata self' = triggerdata self
  /\ currentmon self' = currentmon self
  /\ issued self' = issued self
  /\ (forall a m, store self !! a = Some m -> store self' !! a = Some m)
  /\ (forall k, k ∈ map fst (monitors self')
                <-> k ∈ map mi_name moninfo \/ k ∈ map fst (monitors self))
  /\ (properly_named self ->
      (base < length (store self))%nat ->
      (forall a, a ∈ values (monitors self) -> (base < a)%nat) ->
      properly_named self'
      /\ (forall a, a ∈ values (monitors self') -> (base < a)%nat)).
Proof.
  induction moninfo as [|mon moninfo IH]; intros self; cbv zeta.
  - cbn. do 5 (split; [done|]). split; [|done].
    intros k. split; [by right|].
    intros [Hin|Hin]; [|done]. by apply elem_of_nil in Hin.
  - cbn [for_each]. unfold bind.
    destruct (file_one_ok base mon self)
      as (Hrun & Ht & Hc & Hi & Hs & Hk & Hpn).
    rewrite Hrun. set (self1 := snd (file_one mon self)) in *.
    destruct (IH self1) as (Hrun' & Ht' & Hc' & Hi' & Hs' & Hk' & Hpn').
    split; [done|]. split; [congruence|]. split; [congruence|].
    split; [congruence|]. split; [by auto|]. split.
    + intros k. rewrite Hk', Hk. cbn [map]. rewrite elem_of_cons. tauto.
    + intros Hp Hb Ha. destruct (Hpn Hp Hb Ha) as (Hp1 & Hb1 & Ha1).
      by apply Hpn'.
Qed.

(** A run of [load_config] that returns: the two queries were answered,
    and the loop ran from [load_config_start]. *)
Lemma load_config_run gw data_regex (self self' : WorkspaceSwap.t) :
  load_config gw data_regex self = (Ok tt, self') ->
  exists activews moninfo,
    gw (length (issued self)) ActiveWorkspace
    = Ok (ActiveWorkspaceReply activews)
    /\ gw (S (length (issued self))) Monitors = Ok (MonitorsReply moninfo)
    /\ self' = snd (for_each file_one moninfo
                      (load_config_start data_regex activews self)).
Proof.
  change (load_config gw data_regex)
    with (do* modify (set_triggerdata data_regex) in
          let* activews_reply := send_hyprland_cmd gw ActiveWorkspace in
          let* allmonitorinfo_reply := send_hyprland_cmd gw Monitors in
          let* activews := as_activeworkspace activews_reply in
          let* cm := new_monitor (Monitor.init (aw_monitor activews)
                       (aw_monitorID activews) (Some (aw_id activews))) in
          do* modify (set_currentmon cm) in
          do* modify (set_monitors []) in
          let* allmonitorinfo := as_monitors allmonitorinfo_reply in
          for_each file_one allmonitorinfo).
  unfold bind at 1 2, modify at 1, send_hyprland_cmd at 1.
  cbn [set_triggerdata issued set_issued].
  destruct (gw (length (issued self)) ActiveWorkspace)
    as [activews_reply|e] eqn:Haw; [|done].
  unfold bind at 1, send_hyprland_cmd at 1.
  cbn [set_triggerdata issued set_issued].
  rewrite length_app. cbn [length]. rewrite Nat.add_1_r.
  destruct (gw (S (length (issued self))) Monitors)
    as [allmonitorinfo_reply|e] eqn:Hmon; [|done].
  unfold bind at 1.
  destruct activews_reply as [| activews |]; try done.
  unfold as_activeworkspace, ret at 1.
  unfold bind at 1 2 3, new_monitor, modify.
  cbn [store set_store set_issued set_currentmon set_monitors
       triggerdata currentmon monitors issued].
  unfold bind at 1.
  destruct allmonitorinfo_reply as [moninfo | |]; try done.
  unfold as_monitors, ret at 1.
  rewrite <- app_assoc. cbn [app].
  intros Hrun. exists activews, moninfo. split; [done|]. split; [done|].
  apply (f_equal snd) in Hrun. exact (eq_sym Hrun).
Qed.

(** X15. Whatever state [load_config] is run from (the first time or
    again on a reload) and whatever the window manager lists, when it
    returns: the table holds exactly the names listed, each once, each
    with a record object of its own that carries that name; the active
    record is a further object, made from the reply to
    [activeworkspace], that is none of the table's; and the two queries,
    [activeworkspace] then [monitors], are the commands it sent. *)
Theorem load_config_files_fresh_records gw data_regex
    (self self' : WorkspaceSwap.t) :
  load_config gw data_regex self = (Ok tt, self') ->
  exists activews moninfo,
    gw (length (issued self)) ActiveWorkspace
    = Ok (ActiveWorkspaceReply activews)
    /\ gw (S (length (issued self))) Monitors = Ok (MonitorsReply moninfo)
    /\ issued self' = (issued self ++ [ActiveWorkspace; Monitors])%list
    /\ properly_named self'
    /\ (forall k, k ∈ map fst (monitors self') <-> k ∈ map mi_name moninfo)
    /\ (currentmon self' ∉ values (monitors self'))
    /\ store self' !! currentmon self'
       = Some (Monitor.init (aw_monitor activews) (aw_monitorID activews)
                 (Some (aw_id activews))).
Proof.
  intros (activews & moninfo & Haw & Hmon & ->)%load_config_run.
  set (self0 := load_config_start data_regex activews self).
  destruct (file_loop (length (store self)) moninfo self0)
    as (Hrun & Ht & Hc & Hi & Hs & Hk & Hpn).
  set (self1 := snd (for_each file_one moninfo self0)) in *.
  exists activews, moninfo.
  split; [done|]. split; [done|]. split; [by rewrite Hi|].
  destruct Hpn as [Hp Habove].
  { split; cbn.
    - apply NoDup_nil_2.
    - apply NoDup_nil_2.
    - by intros a ?%elem_of_nil.
    - rewrite length_app. cbn. lia.
    - by intros k a m ?%elem_of_nil. }
  { cbn. rewrite length_app. cbn. lia. }
  { by intros a ?%elem_of_nil. }
  split; [done|]. split.
  { intros k. rewrite Hk. cbn. split; [|by left].
    intros [?|?%elem_of_nil]; done. }
  rewrite Hc. change (currentmon self0) with (length (store self)). split.
  - intros Hin. apply Habove in Hin. lia.
  - apply Hs. cbn. rewrite lookup_app_r by lia.
    by rewrite Nat.sub_diag.
Qed.

Lemma properly_named_just_loaded : properly_named just_loaded.
Proof.
  split.
  - vm_compute. apply NoDup_singleton.
  - vm_compute. apply NoDup_singleton.
  - intros a Ha. vm_compute in Ha.
    apply list_elem_of_singleton in Ha. subst a. vm_compute. lia.
  - vm_compute. lia.
  - intros k a m Hin Hm. vm_compute in Hin.
    apply list_elem_of_singleton in Hin. injection Hin as -> ->.
    vm_compute in Hm. injection Hm as <-. reflexivity.
Qed.

Lemma load_config_files_fresh_records_witness :
  exists activews moninfo,
    one_monitor (length (issued blank)) ActiveWorkspace
    = Ok (ActiveWorkspaceReply activews)
    /\ one_monitor (S (length (issued blank))) Monitors
       = Ok (MonitorsReply moninfo)
    /\ issued just_loaded = (issued blank ++ [ActiveWorkspace; Monitors])%list
    /\ properly_named just_loaded
    /\ (forall k, k ∈ map fst (monitors just_loaded)
                  <-> k ∈ map mi_name moninfo)
    /\ (currentmon just_loaded ∉ values (monitors just_loaded))
    /\ store just_loaded !! currentmon just_loaded
       = Some (Monitor.init (aw_monitor activews) (aw_monitorID activews)
                 (Some (aw_id activews))).
Proof.
  apply (load_config_files_fresh_records one_monitor whole_payload blank
           just_loaded).
  reflexivity.
Defined.

Lemma properly_named_well_named (self : WorkspaceSwap.t) :
  properly_named self -> well_named self.
Proof. intros [? ? ? ? Hn]. split; try done. intros k a m ? _. by apply Hn. Qed.

Lemma properly_named_set_currentmon a (self : WorkspaceSwap.t) :
  properly_named self -> a ∈ values (monitors self) ->
  properly_named (set_currentmon a self).
Proof. intros [? ? Hlive ? ?] Ha. split; try done. by apply Hlive. Qed.

Lemma properly_named_on_monitor a wkspcid (self : WorkspaceSwap.t) :
  properly_named self ->
  properly_named (snd (on_monitor a (Monitor.set_curr_wkspc wkspcid) self)).
Proof.
  intros Hp. destruct (store self !! a) as [m|] eqn:Ha.
  - rewrite (on_monitor_eq _ _ _ _ Ha).
    destruct (Monitor.set_curr_wkspc wkspcid m) as [r m1] eqn:Hset.
    cbn [snd]. destruct Hp as [Hkeys Hvals Hlive Hcur Hnames].
    split; cbn; try done.
    + intros a' Hin. rewrite length_insert. by apply Hlive.
    + by rewrite length_insert.
    + intros k a' m' Hin Hm'.
      destruct (decide (a' = a)) as [->|Hne].
      * rewrite list_lookup_insert_eq in Hm'
          by (by eapply lookup_lt_Some).
        injection Hm' as <-.
        rewrite (set_curr_wkspc_name _ _ _ _ Hset). by eapply Hnames.
      * rewrite list_lookup_insert_ne in Hm' by done. by eapply Hnames.
  - unfold on_monitor. by rewrite Ha.
Qed.

(** X16. Every event other than [custom] keeps the names in the table
    right: when every entry carries the name it is filed under, every
    entry does after the event, whether the handler returns or raises.
    Such a table is without renamed entries, which is what the toggle
    needs to end. *)
Theorem plain_event_keeps_names gw depth (event : HyprEvent.t)
    (self : WorkspaceSwap.t) :
  properly_named self -> HyprEvent.name event <> "custom" ->
  properly_named (snd (handle_event gw depth event self))
  /\ well_named (snd (handle_event gw depth event self)).
Proof.
  intros Hp Hname.
  assert (properly_named (snd (handle_event gw depth event self))) as H;
    [|by split; [|apply properly_named_well_named]].
  unfold handle_event. repeat destruct (decide _); try done.
  - unfold bind.
    pose proof (parse_focusedmon_data_state (HyprEvent.data event) self) as Hs.
    destruct (parse_focusedmon_data _ self) as [[[monname wkspcid]|e0] s1];
      cbn [snd] in Hs; subst s1; [|done].
    unfold get.
    destruct (dict_get monname (monitors self)) as [a|] eqn:Hk; [|done].
    apply properly_named_set_currentmon; [done|]. by eapply dict_get_value.
  - unfold bind.
    pose proof (int_state (HyprEvent.data event) self) as Hs.
    destruct (int _ self) as [[wkspcid|e0] s1]; cbn [snd] in Hs; subst s1;
      [|done].
    unfold get. by apply properly_named_on_monitor.
  - unfold bind.
    pose proof (parse_moveworkspace_data_state (HyprEvent.data event) self)
      as Hs.
    destruct (parse_moveworkspace_data _ self)
      as [[[[wkspcid from] monname]|e0] s1]; cbn [snd] in Hs; subst s1;
      [|done].
    unfold get. destruct (dict_get monname (monitors self)); [|done].
    by apply properly_named_on_monitor.
Qed.

Lemma plain_event_keeps_names_witness :
  properly_named
    (snd (handle_event one_monitor 10 (HyprEvent.mk "workspace" "2")
            just_loaded))
  /\ well_named
       (snd (handle_event one_monitor 10 (HyprEvent.mk "workspace" "2")
               just_loaded)).
Proof.
  apply (plain_event_keeps_names one_monitor 10
           (HyprEvent.mk "workspace" "2") just_loaded).
  - exact properly_named_just_loaded.
  - discriminate.
Defined.

(** ** The tracker: the payloads *)

Lemma split_comma_cons (s : string) :
  exists piece pieces, split_comma s = piece :: pieces.
Proof.
  induction s as [|c t (piece & pieces & IH)]; cbn; [by eauto|].
  destruct (decide _); [by eauto|]. rewrite IH. by eauto.
Qed.

Lemma split_comma_field (field rest : string) :
  no_comma field ->
  split_comma (field ++ "," ++ rest) = field :: split_comma rest.
Proof.
  induction field as [|c t IH]; intros Hn.
  - rewrite append_nil_l, append_cons, append_nil_l. cbn.
    by destruct (decide _).
  - destruct Hn as [Hc Hn]. rewrite append_cons. cbn.
    destruct (decide _); [done|]. by rewrite IH.
Qed.

Lemma split_comma_last (field : string) :
  no_comma field -> split_comma field = [field].
Proof.
  induction field as [|c t IH]; intros Hn; [done|].
  destruct Hn as [Hc Hn]. cbn. destruct (decide _); [done|]. by rewrite IH.
Qed.

(** X17. A [focusedmon] event. With a payload of two fields, the monitor
    name and a second field of ASCII text (where [py_int] is the
    interpreter's [int]): the second field is converted
    to an integer first, so a second field that is no integer raises
    [ValueError] before the name is looked at; a name that the table
    does not hold raises [KeyError]; otherwise the active reference is
    re-pointed to the table's object for that name and nothing else
    changes - the integer is not used, no record is written to. A
    payload without a comma raises [IndexError]. No case changes the
    state otherwise. *)
Theorem handle_event_focusedmon gw depth (monname second : string)
    (self : WorkspaceSwap.t) :
  no_comma monname -> no_comma second -> int_modelled second ->
  handle_event gw depth (HyprEvent.mk "focusedmon" (monname ++ "," ++ second))
    self
  = match py_int second, dict_get monname (monitors self) with
    | None, _ => (Raise ValueError, self)
    | Some _, None => (Raise KeyError, self)
    | Some _, Some a => (Ok tt, set_currentmon a self)
    end
  /\ handle_event gw depth (HyprEvent.mk "focusedmon" monname) self
     = (Raise IndexError, self).
Proof.
  intros Hm Hs _. unfold handle_event. cbn [HyprEvent.name HyprEvent.data].
  destruct (decide ("focusedmon" = "focusedmon")) as [_|H]; [|done].
  unfold parse_focusedmon_data. split.
  - rewrite (split_comma_field _ _ Hm), (split_comma_last _ Hs).
    unfold bind, index, int. cbn [lookup list_lookup]. unfold ret.
    cbv beta iota. destruct (py_int second); [|done].
    unfold get. cbv beta iota.
    by destruct (dict_get monname (monitors self)).
  - by rewrite (split_comma_last _ Hm).
Qed.

Lemma handle_event_focusedmon_witness :
  handle_event one_monitor 10 (HyprEvent.mk "focusedmon" ("DP-1" ++ "," ++ "1"))
    just_loaded
  = match py_int "1", dict_get "DP-1" (monitors just_loaded) with
    | None, _ => (Raise ValueError, just_loaded)
    | Some _, None => (Raise KeyError, just_loaded)
    | Some _, Some a => (Ok tt, set_currentmon a just_loaded)
    end
  /\ handle_event one_monitor 10 (HyprEvent.mk "focusedmon" "DP-1") just_loaded
     = (Raise IndexError, just_loaded).
Proof.
  apply (handle_event_focusedmon one_monitor 10 "DP-1" "1" just_loaded).
  - cbn. repeat split; discriminate.
  - cbn. repeat split; discriminate.
  - split; [reflexivity|cbn; lia].
Defined.

(** X18. A [moveworkspacev2] event with its three fields, the workspace
    id, the workspace name and the monitor name, the id being ASCII text
    (where [py_int] is the interpreter's [int]). A first field that is
    no integer raises [ValueError]; a monitor name that the table does
    not hold raises [KeyError]; otherwise the workspace becomes the
    current one of the record filed under that name, by the record's own
    setter. The second field is not used, and no other record than the
    one of the destination is written to: the record of the monitor the
    workspace came from keeps it as its current workspace. *)
Theorem handle_event_moveworkspacev2 gw depth
    (wkspc wkspcname monname : string) (self : WorkspaceSwap.t) :
  no_comma wkspc -> no_comma wkspcname -> no_comma monname ->
  int_modelled wkspc ->
  let data := wkspc ++ "," ++ wkspcname ++ "," ++ monname in
  handle_event gw depth (HyprEvent.mk "moveworkspacev2" data) self
  = match py_int wkspc, dict_get monname (monitors self) with
    | None, _ => (Raise ValueError, self)
    | Some _, None => (Raise KeyError, self)
    | Some wkspcid, Some a =>
        on_monitor a (Monitor.set_curr_wkspc wkspcid) self
    end
  /\ forall a', dict_get monname (monitors self) <> Some a' ->
       store (snd (handle_event gw depth
                     (HyprEvent.mk "moveworkspacev2" data) self)) !! a'
       = store self !! a'.
Proof.
  intros Hw Hn Hm _ data.
  assert (handle_event gw depth (HyprEvent.mk "moveworkspacev2" data) self
          = match py_int wkspc, dict_get monname (monitors self) with
            | None, _ => (Raise ValueError, self)
            | Some _, None => (Raise KeyError, self)
            | Some wkspcid, Some a =>
                on_monitor a (Monitor.set_curr_wkspc wkspcid) self
            end) as Heq.
  { unfold handle_event. cbn [HyprEvent.name HyprEvent.data].
    destruct (decide ("moveworkspacev2" = "focusedmon")) as [H|_];
      [discriminate|].
    destruct (decide ("moveworkspacev2" = "workspace")) as [H|_];
      [discriminate|].
    destruct (decide ("moveworkspacev2" = "moveworkspacev2")) as [_|H];
      [|done].
    unfold parse_moveworkspace_data, data.
    rewrite (split_comma_field _ _ Hw), (split_comma_field _ _ Hn),
      (split_comma_last _ Hm).
    unfold bind, index, int. cbn [lookup list_lookup]. unfold ret.
    cbv beta iota. destruct (py_int wkspc); [|done].
    unfold get. cbv beta iota.
    by destruct (dict_get monname (monitors self)). }
  split; [done|]. intros a' Ha'. rewrite Heq.
  destruct (py_int wkspc) as [wkspcid|]; [|done].
  destruct (dict_get monname (monitors self)) as [a|]; [|done].
  unfold on_monitor. destruct (store self !! a) as [m|] eqn:Hlook; [|done].
  destruct (Monitor.set_curr_wkspc wkspcid m) as [r m']. cbn.
  apply list_lookup_insert_ne. congruence.
Qed.

Lemma handle_event_moveworkspacev2_witness :
  let data := "2" ++ "," ++ "two" ++ "," ++ "DP-1" in
  handle_event one_monitor 10 (HyprEvent.mk "moveworkspacev2" data) just_loaded
  = match py_int "2", dict_get "DP-1" (monitors just_loaded) with
    | None, _ => (Raise ValueError, just_loaded)
    | Some _, None => (Raise KeyError, just_loaded)
    | Some wkspcid, Some a =>
        on_monitor a (Monitor.set_curr_wkspc wkspcid) just_loaded
    end
  /\ forall a', dict_get "DP-1" (monitors just_loaded) <> Some a' ->
       store (snd (handle_event one_monitor 10
                     (HyprEvent.mk "moveworkspacev2" data) just_loaded)) !! a'
       = store just_loaded !! a'.
Proof.
  apply (handle_event_moveworkspacev2 one_monitor 10 "2" "two" "DP-1"
           just_loaded).
  - cbn. repeat split; discriminate.
  - cbn. repeat split; discriminate.
  - cbn. repeat split; discriminate.
  - split; [reflexivity|cbn; lia].
Defined.

(** ** The tracker: faults that do not happen *)

Lemma safely_bind {S A B} (P : S -> Prop) (m : M S A) (k : A -> M S B) :
  safely P m -> (forall a, safely P (k a)) -> safely P (bind m k).
Proof.
  intros Hm Hk s Hs. unfold bind. destruct (Hm s Hs) as [Hp Hr].
  destruct (m s) as [[a|e] s1]; cbn [fst snd] in *.
  - by apply Hk.
  - split; [done|]. intros e' [= <-]. by apply Hr.
Qed.

Lemma safely_get {S B} (P : S -> Prop) (k : S -> M S B) :
  (forall s, P s ->
     P (snd (k s s))
     /\ forall e, fst (k s s) = Raise e -> ~ internal_fault e) ->
  safely P (bind get k).
Proof. intros Hk s Hs. unfold bind, get. by apply Hk. Qed.

Lemma safely_for_each {S A} (P : S -> Prop) (body : A -> M S unit)
    (xs : list A) :
  (forall x, safely P (body x)) -> safely P (for_each body xs).
Proof.
  intros Hbody. induction xs as [|x xs IH]; cbn [for_each].
  - intros s Hs. by split.
  - by apply safely_bind.
Qed.

Lemma safely_ret {S A} (P : S -> Prop) (a : A) : safely P (ret a).
Proof. intros s Hs. by split. Qed.

Lemma safely_throw {S A} (P : S -> Prop) (e : exn) :
  ~ internal_fault e -> safely P (@throw S A e).
Proof. intros He s Hs. split; [done|]. by intros e' [= <-]. Qed.

Lemma index_safely {S A} (P : S -> Prop) (xs : list A) i :
  safely P (index xs i).
Proof.
  unfold index. destruct (xs !! i); [apply safely_ret|].
  apply safely_throw. by intros [?|?].
Qed.

Lemma int_safely {S} (P : S -> Prop) (data : string) : safely P (int data).
Proof.
  unfold int. destruct (py_int data); [apply safely_ret|].
  apply safely_throw. by intros [?|?].
Qed.

Lemma set_curr_wkspc_sound (wkspc : Z) (m : Monitor.t) :
  Monitor.curr_wkspc m <> Monitor.prev_wkspc m ->
  fst (Monitor.set_curr_wkspc wkspc m) = Ok tt
  /\ Monitor.curr_wkspc (snd (Monitor.set_curr_wkspc wkspc m))
     <> Monitor.prev_wkspc (snd (Monitor.set_curr_wkspc wkspc m)).
Proof.
  intros Hne.
  destruct (set_curr_wkspc_total m wkspc (or_intror Hne)) as [m' Hset].
  rewrite Hset. split; [done|]. by eapply set_curr_wkspc_invariant.
Qed.

(** A method call on a live reference, by a method that keeps a sound
    record sound and raises no internal fault on it. *)
Lemma on_monitor_safely {A} a (method : M Monitor.t A) :
  (forall m, Monitor.curr_wkspc m <> Monitor.prev_wkspc m ->
     Monitor.curr_wkspc (snd (method m)) <> Monitor.prev_wkspc (snd (method m))
     /\ forall e, fst (method m) = Raise e -> ~ internal_fault e) ->
  safely (fun s => healthy s /\ (a < length (store s))%nat)
    (on_monitor a method).
Proof.
  intros Hmeth s [[Hlive Hcur Hrec] Ha].
  destruct (lookup_lt_is_Some_2 _ _ Ha) as [m Hm].
  rewrite (on_monitor_eq _ _ _ _ Hm). cbn [fst snd].
  destruct (Hmeth m (Hrec _ _ Hm)) as [Hs Hr].
  split; [|done]. split; [split|]; cbn; rewrite ?length_insert; try done.
  intros a' m' Hl. cbn [store set_store] in Hl.
  destruct (decide (a' = a)) as [->|Hne].
  - rewrite list_lookup_insert_eq in Hl by done. by injection Hl as <-.
  - rewrite list_lookup_insert_ne in Hl by done. by eapply Hrec.
Qed.

Lemma on_monitor_set_curr_wkspc_safely a wkspc (s : WorkspaceSwap.t) :
  healthy s -> (a < length (store s))%nat ->
  healthy (snd (on_monitor a (Monitor.set_curr_wkspc wkspc) s))
  /\ forall e, fst (on_monitor a (Monitor.set_curr_wkspc wkspc) s) = Raise e ->
               ~ internal_fault e.
Proof.
  intros Hs Ha.
  destruct (on_monitor_safely a (Monitor.set_curr_wkspc wkspc)) with (s := s)
    as [[Hh _] Hr]; [|done|done].
  intros m Hm. destruct (set_curr_wkspc_sound wkspc m Hm) as [Hok Hne].
  split; [done|]. rewrite Hok. by intros e [=].
Qed.

Lemma resync_one_safely (mon : MonInfo) : safely healthy (resync_one mon).
Proof.
  apply safely_get. intros s Hs.
  destruct (dict_get (mi_name mon) (monitors s)) as [a|] eqn:Hk.
  - apply on_monitor_set_curr_wkspc_safely; [done|].
    apply Hs. by eapply dict_get_value.
  - unfold bind, new_monitor, modify. cbn. split; [|by intros e [=]].
    destruct Hs as [Hlive Hcur Hrec]. split; cbn.
    + intros a [->|Hin]%dict_set_values; rewrite length_app; cbn; [lia|].
      apply Hlive in Hin. lia.
    + rewrite length_app. lia.
    + intros a m [Hm|[_ Hm]]%lookup_app_Some; [by eapply Hrec|].
      destruct (a - length (store s))%nat; [|done].
      by injection Hm as <-.
Qed.

Section Faults.

Variable gw : gateway.
Hypothesis gw_external : external_faults gw.

Lemma send_hyprland_cmd_safely (c : command) :
  safely healthy (send_hyprland_cmd gw c).
Proof.
  intros s [Hlive Hcur Hrec]. unfold send_hyprland_cmd. cbn.
  split; [by split|]. intros e He. by eapply gw_external.
Qed.

Lemma update_monitor_info_safely : safely healthy (update_monitor_info gw).
Proof.
  change (update_monitor_info gw)
    with (let* moninfo := query_monitors gw in
          do* for_each resync_one moninfo in
          let* activews := query_activeworkspace gw in
          let* self := get in
          do* on_monitor (currentmon self)
                (modify (Monitor.set_name (aw_monitor activews))) in
          do* on_monitor (currentmon self)
                (modify (Monitor.set_id (aw_monitorID activews))) in
          on_monitor (currentmon self)
            (Monitor.set_curr_wkspc (aw_id activews))).
  apply safely_bind; [|intros moninfo].
  { apply safely_bind; [apply send_hyprland_cmd_safely|].
    intros []; try apply safely_ret; apply safely_throw; by intros [?|?]. }
  apply safely_bind; [|intros _].
  { apply safely_for_each. apply resync_one_safely. }
  apply safely_bind; [|intros activews].
  { apply safely_bind; [apply send_hyprland_cmd_safely|].
    intros []; try apply safely_ret; apply safely_throw; by intros [?|?]. }
  apply safely_get. intros s Hs.
  set (c := currentmon s).
  assert (safely (fun s => healthy s /\ (c < length (store s))%nat)
            (do* on_monitor c
                   (modify (Monitor.set_name (aw_monitor activews))) in
             do* on_monitor c
                   (modify (Monitor.set_id (aw_monitorID activews))) in
             on_monitor c (Monitor.set_curr_wkspc (aw_id activews))))
    as Hsafe.
  { apply safely_bind; [|intros _].
    { apply on_monitor_safely. intros m Hm. split; [done|]. by intros e [=]. }
    apply safely_bind; [|intros _].
    { apply on_monitor_safely. intros m Hm. split; [done|]. by intros e [=]. }
    apply on_monitor_safely. intros m Hm.
    destruct (set_curr_wkspc_sound (aw_id activews) m Hm) as [Hok Hne].
    split; [done|]. rewrite Hok. by intros e [=]. }
  destruct (Hsafe s) as [[Hh _] Hr]; [|done].
  split; [done|]. exact (h_current _ Hs).
Qed.

Lemma focus_workspace_on_current_mon_safely wkspcid :
  safely healthy (focus_workspace_on_current_mon gw wkspcid).
Proof.
  apply safely_bind; [apply send_hyprland_cmd_safely|].
  intros _. apply safely_ret.
Qed.

Lemma do_workspace_change_safely depth :
  forall wkspcid, safely healthy (do_workspace_change gw depth wkspcid).
Proof.
  induction depth as [|depth IH]; intros wkspcid.
  - apply safely_throw. by intros [?|?].
  - intros s Hs. rewrite do_workspace_change_call.
    destruct (update_monitor_info_safely s Hs) as [Hs1 Hr1].
    destruct (update_monitor_info gw s) as [[[]|e] s1]; cbn [fst snd] in *;
      [|split; [done|]; intros e' [= <-]; by apply Hr1].
    destruct (find_wkspc_mon_state wkspcid false s1) as [othermon Hfind].
    rewrite Hfind.
    destruct (lookup_lt_is_Some_2 _ _ (h_current _ Hs1)) as [c Hc].
    assert (exists active, is_current othermon s1 = (Ok active, s1))
      as [active ->].
    { destruct othermon as [a|]; [|by eexists].
      destruct (find_wkspc_mon_Some _ _ _ Hfind) as (_ & o & Ho & _).
      rewrite (is_current_Some _ _ _ _ Ho Hc). by eexists. }
    destruct active.
    + rewrite (deref_eq _ _ _ Hc).
      destruct (Monitor.prev_wkspc c); [by apply IH|]. by split.
    + by apply focus_workspace_on_current_mon_safely.
Qed.

Lemma handle_event_safely depth (event : HyprEvent.t) :
  safely healthy (handle_event gw depth event).
Proof.
  unfold handle_event. repeat destruct (decide _).
  - apply safely_bind; [|intros [monname wkspcid]].
    { unfold parse_focusedmon_data.
      apply safely_bind; [apply index_safely|intros s0].
      apply safely_bind; [apply index_safely|intros s1].
      apply safely_bind; [apply int_safely|intros z]. apply safely_ret. }
    apply safely_get. intros s Hs.
    destruct (dict_get monname (monitors s)) as [a|] eqn:Hk.
    + split; [|by intros e' [=]]. destruct Hs as [Hlive Hcur Hrec].
      split; try done. cbn. apply Hlive. by eapply dict_get_value.
    + split; [done|]. by intros e' [= <-] [?|?].
  - apply safely_bind; [apply int_safely|intros wkspcid].
    apply safely_get. intros s Hs.
    apply on_monitor_set_curr_wkspc_safely; [done|exact (h_current _ Hs)].
  - apply safely_bind; [|intros [[wkspcid from] monname]].
    { unfold parse_moveworkspace_data.
      apply safely_bind; [apply index_safely|intros s0].
      apply safely_bind; [apply int_safely|intros z].
      apply safely_bind; [apply index_safely|intros s1].
      apply safely_bind; [apply index_safely|intros s2]. apply safely_ret. }
    apply safely_get. intros s Hs.
    destruct (dict_get monname (monitors s)) as [a|] eqn:Hk.
    + apply on_monitor_set_curr_wkspc_safely; [done|].
      apply Hs. by eapply dict_get_value.
    + split; [done|]. by intros e' [= <-] [?|?].
  - apply safely_get. intros s Hs.
    destruct (triggerdata s (HyprEvent.data event)) as [group1|];
      [|by split].
    destruct (py_int group1); [|by split].
    by apply do_workspace_change_safely.
  - apply safely_ret.
Qed.

End Faults.

Lemma file_loop_records (moninfo : list MonInfo) :
  forall self : WorkspaceSwap.t,
  records_sound self ->
  records_sound (snd (for_each file_one moninfo self)).
Proof.
  induction moninfo as [|mon moninfo IH]; intros self Hrec; [done|].
  cbn [for_each]. unfold bind.
  destruct (file_one_ok 0 mon self) as (Hrun & _).
  rewrite Hrun. apply IH.
  unfold file_one, bind, new_monitor, modify. cbn.
  intros a m [Hm|[_ Hm]]%lookup_app_Some; [by eapply Hrec|].
  destruct (a - length (store self))%nat; [|done].
  by injection Hm as <-.
Qed.

Lemma load_config_healthy gw data_regex (self self' : WorkspaceSwap.t) :
  records_sound self ->
  load_config gw data_regex self = (Ok tt, self') -> healthy self'.
Proof.
  intros Hrec (activews & moninfo & _ & _ & ->)%load_config_run.
  set (self0 := load_config_start data_regex activews self).
  destruct (file_loop (length (store self)) moninfo self0)
    as (_ & _ & _ & _ & _ & _ & Hpn).
  destruct Hpn as [[_ _ Hlive Hcur _] _].
  { split; cbn.
    - apply NoDup_nil_2.
    - apply NoDup_nil_2.
    - by intros a ?%elem_of_nil.
    - rewrite length_app. cbn. lia.
    - by intros k a m ?%elem_of_nil. }
  { cbn. rewrite length_app. cbn. lia. }
  { by intros a ?%elem_of_nil. }
  split; [done|done|]. apply file_loop_records.
  intros a m [Hm|[_ Hm]]%lookup_app_Some; [by eapply Hrec|].
  destruct (a - length (store self))%nat; [|done].
  by injection Hm as <-.
Qed.

(** X19. From a [load_config] that returned on, through any number of
    events of any kind and whatever the window manager answers: the
    assertion of [Monitor.set_curr_wkspc] does not fail, and the tracker
    follows no reference that is not to a record. The run of the events
    ends either without an error or with an error of another kind: one
    of the gateway, of a payload, or of the recursion limit. *)
Theorem tracker_never_asserts gw data_regex (self0 self : WorkspaceSwap.t)
    (events : list HyprEvent.t) (depth : nat) :
  external_faults gw -> records_sound self0 ->
  load_config gw data_regex self0 = (Ok tt, self) ->
  let out := for_each (handle_event gw depth) events self in
  fst out <> Raise AssertionError
  /\ fst out <> Raise (OtherException "dangling reference")
  /\ healthy (snd out).
Proof.
  intros Hgw Hrec Hload out.
  pose proof (load_config_healthy _ _ _ _ Hrec Hload) as Hh.
  destruct (safely_for_each healthy (handle_event gw depth) events
              (handle_event_safely gw Hgw depth) self Hh) as [Hh' Hr].
  fold out in Hh', Hr. split; [|split; [|done]].
  - intros He. apply (Hr _ He). by left.
  - intros He. apply (Hr _ He). by right.
Qed.

Lemma tracker_never_asserts_witness :
  let out := for_each (handle_event one_monitor 10)
               [HyprEvent.mk "workspace" "2"; HyprEvent.mk "custom" "1"]
               just_loaded in
  fst out <> Raise AssertionError
  /\ fst out <> Raise (OtherException "dangling reference")
  /\ healthy (snd out).
Proof.
  apply (tracker_never_asserts one_monitor whole_payload blank just_loaded
           [HyprEvent.mk "workspace" "2"; HyprEvent.mk "custom" "1"] 10).
  - intros n c e. destruct c; discriminate.
  - intros a m Hm. discriminate.
  - reflexivity.
Defined.

(** ** The loop as a whole *)

Local Close Scope Z_scope.

Section WholeLoop.

Context {W : Type}.
Variable handler_handle_event : nat -> HyprEvent.t -> W -> result unit * W.

Lemma dispatch_event_running (event : HyprEvent.t) (self : @EventHandler.t W) :
  running (snd (dispatch_event handler_handle_event event self))
  = running self.
Proof.
  unfold dispatch_event, bind, get.
  destruct (dispatchers self !! HyprEvent.name event) as [hs|]; [|done].
  generalize self. induction hs as [|h hs IH]; intros s; [done|].
  cbn [for_each]. unfold bind at 1.
  unfold call_handle_event at 1, bind, modify, in_world. cbn.
  destruct (handler_handle_event h event (world s)) as [[[]|e] w']; [|done].
  by rewrite IH.
Qed.

(** X20. The loop handles the lines of the channel one by one in the
    order of arrival, none twice and none skipped: over a channel of
    complete lines whose handling raises nothing, it leaves the state
    that handling the lines one after the other leaves, and then waits
    for input. *)
Theorem mainloop_handles_lines_in_order (lines : list string) :
  forall self self' : @EventHandler.t W,
  Forall no_newline lines -> running self = true ->
  for_each (handle_line handler_handle_event) lines self = (Ok tt, self') ->
  mainloop handler_handle_event (concat (map send_line lines)) self
  = Blocked self'.
Proof.
  induction lines as [|line lines IH]; intros self self' Hnl Hrun.
  - cbn. intros [= <-]. unfold mainloop. cbn. by rewrite Hrun.
  - apply Forall_cons in Hnl as [Hline Hnl].
    cbn [for_each map concat]. unfold bind at 1, handle_line at 1.
    unfold mainloop. cbn [mainloop_from]. rewrite Hrun.
    rewrite get_next_event_line by done.
    assert (forall s, mainloop_from handler_handle_event
                        (length (send_line line
                                 ++ concat (map send_line lines)))
                        (concat (map send_line lines)) s
                      = mainloop handler_handle_event
                          (concat (map send_line lines)) s) as Hfuel.
    { intros s. apply mainloop_from_enough. rewrite length_app.
      unfold send_line. rewrite length_app, length_map. cbn. lia. }
    destruct (decode_utf8 line) as [text|e]; [|done].
    destruct (regex1_search text) as [[n d]|].
    + pose proof (dispatch_event_running (HyprEvent.mk n d) self) as Hr.
      destruct (dispatch_event handler_handle_event (HyprEvent.mk n d) self)
        as [[[]|e] self1]; [|done].
      cbn [snd] in Hr. intros Hrest. rewrite Hfuel.
      apply IH; [done|congruence|done].
    + unfold ret. intros Hrest. rewrite Hfuel. by apply IH.
Qed.

End WholeLoop.

Lemma mainloop_handles_lines_in_order_witness :
  mainloop quiet_handle_event
    (concat (map send_line ["workspace>>2"; "garbage"; "workspace>>3"]))
    subscribed_engine
  = Blocked
      (snd (for_each (handle_line quiet_handle_event)
              ["workspace>>2"; "garbage"; "workspace>>3"] subscribed_engine)).
Proof.
  refine (mainloop_handles_lines_in_order quiet_handle_event
            ["workspace>>2"; "garbage"; "workspace>>3"] subscribed_engine
            (snd (for_each (handle_line quiet_handle_event)
                    ["workspace>>2"; "garbage"; "workspace>>3"]
                    subscribed_engine)) _ _ _).
  - repeat constructor; discriminate.
  - reflexivity.
  - vm_compute. reflexivity.
Defined.

(** ** What a load adds *)

Section LoadOrder.

Context {W : Type}.
Variable load_plugin_as_module : string -> W -> result PluginModule * W.
Variable handler_load_config : nat -> ModConfig -> W -> result unit * W.

Local Abbreviation load_dispatcher :=
  (@load_dispatcher W load_plugin_as_module handler_load_config).

(** X21. What a successful [load_dispatcher] adds. The instance the
    module brings is put into the handler registry under the module's
    own name; its [load_config] is called once, with the section of the
    name that was asked for; and it is appended to the end of the
    subscription list of every event that the section of the module's
    name subscribes to, once for each time the event is listed there.
    Every list keeps the handlers it held, in their order, in front:
    handlers loaded earlier are dispatched to earlier. *)
Theorem load_dispatcher_appends_to_lists (dispname : string)
    (self self' : @EventHandler.t W) (module : PluginModule) (w : W) :
  load_plugin_as_module dispname (world self) = (Ok module, w) ->
  load_dispatcher dispname self = (Ok tt, self') ->
  exists mod_config section events,
    config self !! dispname = Some mod_config
    /\ config self !! mod_name module = Some section
    /\ subscribes section = Some events
    /\ handlers self'
       = <[mod_name module := mod_handler module]> (handlers self)
    /\ calls self'
       = (calls self ++ [LoadConfig (mod_handler module) mod_config])%list
    /\ forall event,
         default [] (dispatchers self' !! event)
         = (default [] (dispatchers self !! event)
            ++ replicate (count_occ string_dec events event)
                 (mod_handler module))%list.
Proof.
  intros Hload. rewrite load_dispatcher_eq, Hload. cbn zeta.
  destruct (config self !! dispname) as [mod_config|]; [|done].
  destruct (handler_load_config _ mod_config w) as [[[]|e1] w']; [|done].
  destruct (config self !! mod_name module) as [section|]; [|done].
  destruct (subscribes section) as [events|] eqn:Es; [|done].
  intros Hrun. exists mod_config, section, events.
  split; [done|]. split; [done|]. split; [done|].
  match type of Hrun with for_each _ _ ?s = _ =>
    pose proof (subscribed_lists (mod_handler module) events s) as Hlists;
    destruct (for_each_subscribe (mod_handler module) events s) as [d Hd]
  end.
  rewrite Hrun in Hlists, Hd. injection Hd as ->.
  split; [done|]. split; [done|]. intros event.
  cbn [snd] in Hlists. by rewrite Hlists.
Qed.

End LoadOrder.

Lemma load_dispatcher_appends_to_lists_witness :
  exists mod_config section events,
    config fresh_engine !! "workspaceswap" = Some mod_config
    /\ config fresh_engine !! mod_name (mkModule "workspaceswap" 0)
       = Some section
    /\ subscribes section = Some events
    /\ handlers loaded_one
       = <[mod_name (mkModule "workspaceswap" 0)
           := mod_handler (mkModule "workspaceswap" 0)]>
           (handlers fresh_engine)
    /\ calls loaded_one
       = (calls fresh_engine
          ++ [LoadConfig (mod_handler (mkModule "workspaceswap" 0))
                mod_config])%list
    /\ forall event,
         default [] (dispatchers loaded_one !! event)
         = (default [] (dispatchers fresh_engine !! event)
            ++ replicate (count_occ string_dec events event)
                 (mod_handler (mkModule "workspaceswap" 0)))%list.
Proof.
  refine (load_dispatcher_appends_to_lists fresh_loader quiet_load_config
            "workspaceswap" fresh_engine loaded_one
            (mkModule "workspaceswap" 0) 1 _ _).
  - reflexivity.
  - vm_compute. reflexivity.
Defined.

(** ** Lines that give no event *)

Section SkippedLines.

Context {W : Type}.
Variable handler_handle_event : nat -> HyprEvent.t -> W -> result unit * W.

Local Abbreviation mainloop := (@mainloop W handler_handle_event).




End SkippedLines.


